(** * Reddit keyword alert: the poll / dedupe / match / notify cycle

    A shallow embedding of [reddit_monitor.py] and the properties of its
    pipeline: the seen-item store ([load_seen_items], [save_seen_items]),
    the paginated collector ([fetch_multiple_batches]), the keyword matcher
    and record builder ([process_items]), the dispatcher ([send_email]) and
    the cycle ([check_reddit]).

    Conventions of the embedding.
    - A Python [str] is a [string], one character of the model for each
      character of the Python string (the emoji of the mail, which are
      constants of the program, are spelled in UTF-8); [str.lower] is
      modelled on the ASCII letters, the other characters are left as they
      are.
    - A Python [set] of strings is a [gset string].  Python does not define
      the order in which a set is iterated: CPython walks its hash table, and
      the hash of a string changes from one interpreter process to the next.
      The order is therefore a parameter, the class [SetOrder]: one
      enumeration of each set for the whole process, which does not record
      the order in which the elements were added.  Each cycle builds its
      sets anew: the property of two cycles in a row lets each cycle have
      an order of its own, and files written by different cycles are
      compared up to the order of their entries.
    - An exception is a value [Raise e] of [result]; code that touches the
      file system, the mail service or the console runs in the monad [M],
      which threads the files and the list of observable events.
    - The network and the mail service are oracles: [net] answers a request
      by a page or a failure, [mail_ok] tells whether the mail API accepts
      the message. *)

From Stdlib Require Import ZArith String Ascii List Lia.
From stdpp Require Import base option list sets gmap strings pretty.

Set Warnings "-abstract-large-number,-clear-no-such-hyp".

Open Scope string_scope.
Open Scope list_scope.
Open Scope Z_scope.

(** ** Python runtime *)

Inductive exn :=
| JSONDecodeError
| ValueError.

Inductive result (A : Type) :=
| Ok (a : A)
| Raise (e : exn).
Arguments Ok {A} a.
Arguments Raise {A} e.

Definition result_bind {A B} (r : result A) (k : A → result B) : result B :=
  match r with
  | Ok a => k a
  | Raise e => Raise e
  end.

(** [c.lower()] for one character. *)
Definition lower_ascii (c : ascii) : ascii :=
  let n := nat_of_ascii c in
  if ((65 <=? n) && (n <=? 90))%nat then ascii_of_nat (n + 32) else c.

(** [s.lower()] *)
Fixpoint lower (s : string) : string :=
  match s with
  | EmptyString => EmptyString
  | String c s' => String (lower_ascii c) (lower s')
  end.

(** [needle in hay] for two strings. *)
Fixpoint contains (needle hay : string) : bool :=
  String.prefix needle hay ||
  match hay with
  | EmptyString => false
  | String _ hay' => contains needle hay'
  end.

(** [s[:n]] *)
Definition str_prefix (n : nat) (s : string) : string := String.substring 0 n s.

(** [sep.join(l)] *)
Definition join (sep : string) (l : list string) : string := String.concat sep l.

(** [l[-n:]] for [n > 0]. *)
Definition last_n {A} (n : nat) (l : list A) : list A :=
  drop (length l - n)%nat l.

(** The iteration order of sets in one interpreter process. *)
Class SetOrder := {
  set_iter : gset string → list string;
  set_iter_perm s : set_iter s ≡ₚ elements s
}.

(** *** [datetime.fromtimestamp(t).strftime('%Y-%m-%d %H:%M:%S')] *)

Record datetime := {
  year : Z; month : Z; day : Z; hour : Z; minute : Z; second : Z
}.

(** The proleptic Gregorian date of a day number counted from 1970-01-01. *)
Definition civil_from_days (days : Z) : Z * Z * Z :=
  let z := days + 719468 in
  let era := z `div` 146097 in
  let doe := z - era * 146097 in
  let yoe := (doe - doe `div` 1460 + doe `div` 36524 - doe `div` 146096) `div` 365 in
  let doy := doe - (365 * yoe + yoe `div` 4 - yoe `div` 100) in
  let mp := (5 * doy + 2) `div` 153 in
  let d := doy - (153 * mp + 2) `div` 5 + 1 in
  let m := if mp <? 10 then mp + 3 else mp - 9 in
  let y := yoe + era * 400 in
  (if m <=? 2 then y + 1 else y, m, d).

(** [tz t] is the offset of local time from UTC, in seconds, at the instant
    [t]; a [datetime] holds the years 1 to 9999 only.  Outside these years
    the call raises; CPython names the exception [ValueError] next to the
    range and [OverflowError] or [OSError] far from it, which the model does
    not tell apart, and it also rejects the first day of the year 1: a
    property stated for every timestamp says only that the call raises, and
    only outside the years 1 to 9999. *)
Definition fromtimestamp (tz : Z → Z) (t : Z) : result datetime :=
  let local := t + tz t in
  let '(y, m, d) := civil_from_days (local `div` 86400) in
  let sod := local `mod` 86400 in
  if (1 <=? y) && (y <=? 9999)
  then Ok {| year := y; month := m; day := d;
             hour := sod `div` 3600;
             minute := (sod `mod` 3600) `div` 60;
             second := sod `mod` 60 |}
  else Raise ValueError.

Definition digit (n : Z) : ascii := ascii_of_nat (48 + Z.to_nat n).

(** [%m], [%d], [%H], [%M], [%S]: two digits. *)
Definition pad2 (n : Z) : string :=
  String (digit (n `div` 10)) (String (digit (n `mod` 10)) "").

(** [%Y] is the year in decimal, as the C library prints it. *)
Definition strftime (dt : datetime) : string :=
  pretty (year dt) +:+ "-" +:+ pad2 (month dt) +:+ "-" +:+ pad2 (day dt)
  +:+ " " +:+ pad2 (hour dt) +:+ ":" +:+ pad2 (minute dt) +:+ ":" +:+ pad2 (second dt).

(** ** Data model *)

(** [item["data"]] of a feed entry; a field that [dict.get] may find absent
    is an [option]. *)
Record item_data := {
  d_id : string;
  d_title : option string;
  d_selftext : option string;
  d_body : option string;
  d_subreddit : option string;
  d_permalink : option string;
  d_created_utc : option Z;
  d_link_title : option string
}.

(** [dict.get(key, default)] *)
Definition get {A} (field : option A) (default : A) : A :=
  match field with
  | Some v => v
  | None => default
  end.

(** One entry of [matches]: the dictionary built by [process_items]. *)
Record match_record := {
  m_keywords : string;
  m_title : string;
  m_url : string;
  m_subreddit : string;
  m_created : string;
  m_type : string
}.

(** What one request of the collector yields: the [try] block fails (the
    transport, the status or the payload), or the page decodes to its
    [children] and its [after] cursor. *)
Inductive page_result :=
| Fail
| Page (children : list item_data) (after : option string).

(** A seen file on disk, when it exists: an array of identifiers, or bytes
    that [set(json.load(f))] rejects. *)
Inductive content :=
| Undecodable
| IdArray (ids : list string).

(** Lines of the console that the properties below refer to. *)
Inductive output :=
| EmailSent (n : nat)
| ErrorSendingEmail
| NoKeywordMatches.

Inductive event :=
| EmailsSend (matches : list match_record)
| Print (line : output)
| Dump (filename : string) (seen_list : list string).

Record state := {
  files : gmap string content;
  events : list event
}.

(** ** The monad of effects *)

Definition M (A : Type) : Type := state → result A * state.

#[global] Instance M_ret : MRet M := λ A a st, (Ok a, st).

#[global] Instance M_bind : MBind M := λ A B k m st,
  match m st with
  | (Ok a, st') => k a st'
  | (Raise e, st') => (Raise e, st')
  end.

Definition lift {A} (r : result A) : M A := λ st, (r, st).

Definition emit (e : event) : M unit :=
  λ st, (Ok tt, {| files := files st; events := events st ++ [e] |}).

Definition print (line : output) : M unit := emit (Print line).

(** [json.dump(seen_list, open(filename, "w"))] *)
Definition dump (seen_list : list string) (filename : string) : M unit :=
  λ st, (Ok tt, {| files := <[filename := IdArray seen_list]> (files st);
                   events := events st ++ [Dump filename seen_list] |}).

(** ** The program *)

Definition REDDIT_POSTS_URL := "https://www.reddit.com/r/all/new.json?limit=100".
Definition REDDIT_COMMENTS_URL := "https://www.reddit.com/r/all/comments.json?limit=100".
Definition SEEN_POSTS_FILE := "seen_posts.json".
Definition SEEN_COMMENTS_FILE := "seen_comments.json".

Section Program.
Context {order : SetOrder}.
(** [KEYWORDS], as read from [keywords.json] when the module is loaded. *)
Variable KEYWORDS : list string.
Variable tz : Z → Z.
(** [net batch_num batch_url]: the outcome of the request of batch
    [batch_num] (counted from 0) of one collection. *)
Variable net : nat → string → page_result.
Variable mail_ok : list match_record → bool.

Definition load_seen_items (filename : string) : M (gset string) :=
  λ st, match files st !! filename with
        | Some (IdArray ids) => (Ok (list_to_set ids), st)
        | Some Undecodable => (Raise JSONDecodeError, st)
        | None => (Ok ∅, st)
        end.

(** The list that [save_seen_items] hands to [json.dump]. *)
Definition seen_list (seen_items : gset string) : list string :=
  let seen_list := set_iter seen_items in
  if (5000 <? length seen_list)%nat then last_n 5000 seen_list else seen_list.

Definition save_seen_items (seen_items : gset string) (filename : string) : M unit :=
  dump (seen_list seen_items) filename.

(** The HTML body is a function of [matches] alone; the event keeps
    [matches] in its place.  The result is [None], [True] or [False]. *)
Definition send_email (matches : list match_record) : M (option bool) :=
  match matches with
  | [] => mret None
  | _ =>
      emit (EmailsSend matches) ;;
      if mail_ok matches
      then print (EmailSent (length matches)) ;; mret (Some true)
      else print ErrorSendingEmail ;; mret (Some false)
  end.

(** [if after:] *)
Definition truthy (after : option string) : bool :=
  match after with
  | Some s => negb (String.eqb s "")
  | None => false
  end.

(** The URL of a batch: [url], then [&after=] and the cursor when there is
    one. *)
Definition batch_url_of (url : string) (after : option string) : string :=
  if truthy after then url +:+ "&after=" +:+ get after "" else url.

(** The loop of [fetch_multiple_batches] with [remaining] iterations left.
    Besides [all_items] it yields the requests made, each with its outcome. *)
Fixpoint fetch_loop (url : string) (remaining batch_num : nat)
    (after : option string) (all_items : list item_data)
    (trace : list (string * page_result))
  : list item_data * list (string * page_result) :=
  match remaining with
  | O => (all_items, trace)
  | S remaining =>
      let batch_url := batch_url_of url after in
      let response := net batch_num batch_url in
      let trace := trace ++ [(batch_url, response)] in
      match response with
      | Fail => (all_items, trace)
      | Page items after =>
          let all_items := all_items ++ items in
          if negb (truthy after) || (length items =? 0)%nat
          then (all_items, trace)
          else fetch_loop url remaining (S batch_num) after all_items trace
      end
  end.

Definition fetch_multiple_batches (url : string) (num_batches : nat)
  : list item_data * list (string * page_result) :=
  fetch_loop url num_batches 0 None [] [].

(** The inner loop over [KEYWORDS]. *)
Definition match_keywords (content : string) : gset string :=
  foldl (λ matched_keywords keyword,
           if contains (lower keyword) content
           then {[keyword]} ∪ matched_keywords
           else matched_keywords) ∅ KEYWORDS.

(** The title and the body that [process_items] searches and reports. *)
Definition item_body (item_type : string) (item_data : item_data) : string :=
  if String.eqb item_type "post"
  then get (d_selftext item_data) ""
  else get (d_body item_data) "".

Definition item_title (item_type : string) (item_data : item_data) : string :=
  let title := get (d_title item_data) "" in
  let body := item_body item_type item_data in
  if String.eqb item_type "comment"
  then get (d_link_title item_data) ("Comment: " +:+ str_prefix 50 body +:+ "...")
  else title.

(** [content]: the text that is searched. *)
Definition item_content (item_type : string) (item_data : item_data) : string :=
  lower (item_title item_type item_data +:+ " " +:+ item_body item_type item_data).

(** The dictionary appended to [matches]. *)
Definition build_record (item_type : string) (item_data : item_data)
    (created : string) (matched_keywords : gset string) : match_record :=
  {| m_keywords := join ", " (set_iter matched_keywords);
     m_title := item_title item_type item_data;
     m_url := "https://reddit.com" +:+ get (d_permalink item_data) "";
     m_subreddit := get (d_subreddit item_data) "unknown";
     m_created := created;
     m_type := item_type |}.

(** One iteration of the loop of [process_items]. *)
Definition process_item (item_type : string) (item_data : item_data)
    (acc : list match_record * nat * gset string)
  : result (list match_record * nat * gset string) :=
  let '(matches, new_items_checked, seen_items) := acc in
  let item_id := d_id item_data in
  if decide (item_id ∈ seen_items) then Ok acc
  else
    let new_items_checked := S new_items_checked in
    result_bind (fromtimestamp tz (get (d_created_utc item_data) 0)) (λ dt,
    let created := strftime dt in
    let matched_keywords := match_keywords (item_content item_type item_data) in
    let matches :=
      if decide (matched_keywords = ∅) then matches
      else matches ++ [build_record item_type item_data created matched_keywords] in
    Ok (matches, new_items_checked, {[item_id]} ∪ seen_items)).

Fixpoint process_loop (item_type : string) (items : list item_data)
    (acc : list match_record * nat * gset string)
  : result (list match_record * nat * gset string) :=
  match items with
  | [] => Ok acc
  | item :: items =>
      result_bind (process_item item_type item acc) (process_loop item_type items)
  end.

(** [process_items] returns [matches] and [new_items_checked]; the third
    component is [seen_items] as the call leaves it, since the caller's set
    is updated in place. *)
Definition process_items (items : list item_data) (seen_items : gset string)
    (item_type : string) : result (list match_record * nat * gset string) :=
  process_loop item_type items ([], O, seen_items).

(** What one item contributes when it is new. *)
Definition new_matches (item_type : string) (item : item_data) (dt : datetime)
  : list match_record :=
  let matched_keywords := match_keywords (item_content item_type item) in
  if decide (matched_keywords = ∅) then []
  else [build_record item_type item (strftime dt) matched_keywords].

(** The items that gave a record, with the record each one gave. *)
Definition record_of (item_type : string) (item : item_data) (r : match_record) : Prop :=
  ∃ dt, fromtimestamp tz (get (d_created_utc item) 0) = Ok dt ∧
        match_keywords (item_content item_type item) ≠ ∅ ∧
        r = build_record item_type item (strftime dt)
              (match_keywords (item_content item_type item)).

Definition check_reddit : M unit :=
  seen_posts ← load_seen_items SEEN_POSTS_FILE;
  seen_comments ← load_seen_items SEEN_COMMENTS_FILE;
  let all_matches := [] in
  let posts := (fetch_multiple_batches REDDIT_POSTS_URL 10).1 in
  '(post_matches, new_posts_checked, seen_posts) ←
      lift (process_items posts seen_posts "post");
  let all_matches := all_matches ++ post_matches in
  let comments := (fetch_multiple_batches REDDIT_COMMENTS_URL 10).1 in
  '(comment_matches, new_comments_checked, seen_comments) ←
      lift (process_items comments seen_comments "comment");
  let all_matches := all_matches ++ comment_matches in
  match all_matches with
  | [] => print NoKeywordMatches
  | _ => send_email all_matches ;; mret tt
  end ;;
  save_seen_items seen_posts SEEN_POSTS_FILE ;;
  save_seen_items seen_comments SEEN_COMMENTS_FILE.

End Program.

(** ** Vocabulary of the properties *)

(** The items of a page; a failed request brings none. *)
Definition children_of (r : page_result) : list item_data :=
  match r with
  | Page items _ => items
  | Fail => []
  end.

(** The items of the pages of a trace, in the order of the requests. *)
Definition page_items (trace : list (string * page_result)) : list item_data :=
  concat ((λ call, children_of call.2) <$> trace).

(** A page after which the collector asks for the next one: it decoded, it
    is not empty and it names a cursor. *)
Definition continues (r : page_result) : bool :=
  match r with
  | Page items after => truthy after && negb (length items =? 0)%nat
  | Fail => false
  end.

(** The requests of one collection from batch [n] on, [after] being the
    cursor in hand: each goes to [batch_url_of url after], is answered by
    the network, and is followed by another only when its page continues. *)
Inductive chain (net : nat → string → page_result) (url : string)
  : nat → option string → list (string * page_result) → Prop :=
| chain_nil n after : chain net url n after []
| chain_stop n after :
    continues (net n (batch_url_of url after)) = false →
    chain net url n after
      [(batch_url_of url after, net n (batch_url_of url after))]
| chain_step n after items after' rest :
    net n (batch_url_of url after) = Page items after' →
    continues (Page items after') = true →
    chain net url (S n) after' rest →
    chain net url n after
      ((batch_url_of url after, Page items after') :: rest).

(** The events of the notification step. *)
Definition notification (mail_ok : list match_record → bool)
    (all_matches : list match_record) : list event :=
  match all_matches with
  | [] => [Print NoKeywordMatches]
  | _ => [EmailsSend all_matches;
          Print (if mail_ok all_matches then EmailSent (length all_matches)
                 else ErrorSendingEmail)]
  end.

(** Every decimal digit of a string replaced by the letter [d]. *)
Definition shape_ascii (c : ascii) : ascii :=
  let n := nat_of_ascii c in
  if ((48 <=? n) && (n <=? 57))%nat then "d"%char else c.

Fixpoint shape (s : string) : string :=
  match s with
  | EmptyString => EmptyString
  | String c s' => String (shape_ascii c) (shape s')
  end.

(** The calls of [resend.Emails.send] among some events. *)
Definition dispatches (evs : list event) : list (list match_record) :=
  omap (λ e, match e with EmailsSend matches => Some matches | _ => None end) evs.

(** *** The calendar

    The proleptic Gregorian calendar as Python's [datetime] counts it: the
    days of a month, the days before a year and before a month, and the
    ordinal of a date, which is 1 on the first of January of the year 1. *)
Definition is_leap (y : Z) : bool :=
  (y `mod` 4 =? 0) && (negb (y `mod` 100 =? 0) || (y `mod` 400 =? 0)).

Definition days_in_month (y m : Z) : Z :=
  if m =? 2 then (if is_leap y then 29 else 28)
  else if (m =? 4) || (m =? 6) || (m =? 9) || (m =? 11) then 30 else 31.

Definition days_before_year (y : Z) : Z :=
  365 * (y - 1) + (y - 1) `div` 4 - (y - 1) `div` 100 + (y - 1) `div` 400.

Definition days_before_month (y m : Z) : Z :=
  foldr Z.add 0 (days_in_month y <$> seqZ 1 (m - 1)).

Definition ordinal (y m d : Z) : Z := days_before_year y + days_before_month y m + d.

(** [dt] is a date of the calendar and a time of day, and it lies [local]
    seconds after 1970-01-01 00:00:00. *)
Definition civil_time (dt : datetime) (local : Z) : Prop :=
  1 ≤ month dt ≤ 12 ∧ 1 ≤ day dt ≤ days_in_month (year dt) (month dt) ∧
  0 ≤ hour dt ≤ 23 ∧ 0 ≤ minute dt ≤ 59 ∧ 0 ≤ second dt ≤ 59 ∧
  (ordinal (year dt) (month dt) (day dt) - ordinal 1970 1 1) * 86400
    + hour dt * 3600 + minute dt * 60 + second dt = local.

(** [int(s)] for a string of decimal digits. *)
Definition digit_value (c : ascii) : option Z :=
  let n := nat_of_ascii c in
  if ((48 <=? n) && (n <=? 57))%nat then Some (Z.of_nat n - 48) else None.

Fixpoint digits_value (s : string) : option Z :=
  match s with
  | EmptyString => Some 0
  | String c s' =>
      match digit_value c, digits_value s' with
      | Some v, Some n => Some (v * 10 ^ Z.of_nat (String.length s') + n)
      | _, _ => None
      end
  end.

Definition int (s : string) : option Z :=
  match s with
  | EmptyString => None
  | _ => digits_value s
  end.

(** [s] is made of six numbers in decimal, separated as in
    [%Y-%m-%d %H:%M:%S], the last five on two digits each, and they are the
    fields of [dt]. *)
Definition reads_as (s : string) (dt : datetime) : Prop :=
  ∃ Y m d H M S : string,
    s = Y +:+ "-" +:+ m +:+ "-" +:+ d +:+ " " +:+ H +:+ ":" +:+ M +:+ ":" +:+ S ∧
    int Y = Some (year dt) ∧
    Forall2 (λ field n, String.length field = 2%nat ∧ int field = Some n)
      [m; d; H; M; S] [month dt; day dt; hour dt; minute dt; second dt].

(** What a seen file holds after [seen_items] was saved to it: identifiers
    of the set, each once, all of them when the set has at most 5000 and
    5000 of them when it has more. *)
Definition persisted (seen_items : gset string) (ids : list string) : Prop :=
  NoDup ids ∧ (∀ x, x ∈ ids → x ∈ seen_items) ∧
  length ids = (size seen_items `min` 5000)%nat.

(** The file [filename] holds the same identifiers in [fs] and in [fs'],
    whatever the order of the entries. *)
Definition same_identifiers (fs fs' : gmap string content) (filename : string) : Prop :=
  ∃ ids ids', fs !! filename = Some (IdArray ids) ∧
              fs' !! filename = Some (IdArray ids') ∧ ids ≡ₚ ids'.

(** ** Two iteration orders and sample histories *)

(** The order of the underlying trie, and its reverse: two processes. *)
Definition trie_order : SetOrder :=
  {| set_iter := elements; set_iter_perm s := reflexivity (elements s) |}.

Definition reversed_order : SetOrder :=
  {| set_iter s := reverse (elements s);
     set_iter_perm s := reverse_Permutation (elements s) |}.

(** [seen_items.add(x)] for each [x] of [added], in turn. *)
Definition add_all (added : list string) (seen_items : gset string) : gset string :=
  foldl (λ seen_items x, {[x]} ∪ seen_items) seen_items added.

Definition ident_of (n : nat) : string := "t3_" +:+ pretty n.

(** 7000 identifiers, oldest first; and the same, newest first. *)
Definition ascending : list string := ident_of <$> seq 0 7000.
Definition descending : list string := reverse ascending.

(** The post and the comment of the end-to-end scenario. *)
Definition post_A : item_data :=
  {| d_id := "p1"; d_title := Some "We are hiring"; d_selftext := Some "";
     d_body := None; d_subreddit := Some "jobs";
     d_permalink := Some "/r/jobs/comments/p1/"; d_created_utc := Some 1700000000;
     d_link_title := None |}.

Definition comment_B : item_data :=
  {| d_id := "c1"; d_title := None; d_selftext := None;
     d_body := Some "no match here"; d_subreddit := Some "jobs";
     d_permalink := Some "/r/jobs/comments/p1/c1/"; d_created_utc := Some 1700000060;
     d_link_title := None |}.

(** A post whose title ends, and whose text starts, inside a keyword. *)
Definition post_foo_bar : item_data :=
  {| d_id := "p9"; d_title := Some "foo"; d_selftext := Some "bar";
     d_body := None; d_subreddit := None; d_permalink := None;
     d_created_utc := Some 0; d_link_title := None |}.

Definition post_alpha_beta : item_data :=
  {| d_id := "p2"; d_title := Some "Alpha meets beta"; d_selftext := Some "";
     d_body := None; d_subreddit := Some "greek";
     d_permalink := Some "/r/greek/comments/p2/"; d_created_utc := Some 1700000000;
     d_link_title := None |}.

Definition utc : Z → Z := λ _, 0.

(** A feed of two pages of one post each, then empty pages. *)
Definition stub_empty_from_page_3 : nat → string → page_result :=
  λ batch_num _,
    match batch_num with
    | 0%nat => Page [post_A] (Some "t3_p1")
    | 1%nat => Page [post_alpha_beta] (Some "t3_p2")
    | _ => Page [] (Some "t3_p2")
    end.

(** A feed whose second request fails. *)
Definition stub_fails_on_page_2 : nat → string → page_result :=
  λ batch_num _,
    match batch_num with
    | 0%nat => Page [post_A; post_alpha_beta] (Some "t3_p2")
    | _ => Fail
    end.

(** One cycle's network: a post and a comment, one page each. *)
Definition sample_net : nat → string → page_result :=
  λ _ batch_url,
    if String.prefix REDDIT_POSTS_URL batch_url
    then Page [post_A] None
    else Page [comment_B] None.

(** What one cycle meets: the network and the mail service of its time. *)
Definition world : Type :=
  (nat → string → page_result) * (list match_record → bool).

(** ** The program, continued: the message of [send_email] and [main.py] *)

(** The double quote and the line feed. *)
Definition dq : string := String (ascii_of_nat 34) "".
Definition nl : string := String (ascii_of_nat 10) "".

(** [item_type] in the loop of [send_email]. *)
Definition item_type_label (m : match_record) : string :=
  if String.eqb (m_type m) "comment" then "💬 Comment" else "📝 Post".

(** The block that the loop of [send_email] adds for one match. *)
Definition match_html (m : match_record) : string :=
  let item_type := item_type_label m in
  nl +:+ "        <div style=" +:+ dq +:+ "margin: 20px 0; padding: 15px; border-left: 3px solid #FF4500; background-color: #f8f9fa;" +:+ dq +:+ ">" +:+
  nl +:+ "            <p style=" +:+ dq +:+ "margin: 0 0 10px 0;" +:+ dq +:+ ">" +:+
  nl +:+ "                <strong style=" +:+ dq +:+ "color: #FF4500;" +:+ dq +:+ ">Keywords:</strong> " +:+ m_keywords m +:+
  nl +:+ "            </p>" +:+
  nl +:+ "            <p style=" +:+ dq +:+ "margin: 0 0 10px 0;" +:+ dq +:+ ">" +:+
  nl +:+ "                <strong>Type:</strong> " +:+ item_type +:+
  nl +:+ "            </p>" +:+
  nl +:+ "            <p style=" +:+ dq +:+ "margin: 0 0 10px 0;" +:+ dq +:+ ">" +:+
  nl +:+ "                <strong>Title:</strong> <a href=" +:+ dq +:+ m_url m +:+ dq +:+ " style=" +:+ dq +:+ "color: #0079D3; text-decoration: none;" +:+ dq +:+ ">" +:+ m_title m +:+ "</a>" +:+
  nl +:+ "            </p>" +:+
  nl +:+ "            <p style=" +:+ dq +:+ "margin: 0; font-size: 0.9em; color: #666;" +:+ dq +:+ ">" +:+
  nl +:+ "                Subreddit: r/" +:+ m_subreddit m +:+ " | Posted: " +:+ m_created m +:+
  nl +:+ "            </p>" +:+
  nl +:+ "        </div>" +:+
  nl +:+ "        ".

(** [html], as [send_email] hands it to [resend.Emails.send]. *)
Definition email_html (matches : list match_record) : string :=
  let html := "<h2>🚨 Reddit Keyword Matches Found!</h2>" in
  let html := html +:+ "<p>Found <strong>" +:+ pretty (length matches) +:+
              "</strong> new item(s) matching your keywords:</p>" in
  let html := html +:+ "<hr>" in
  let html := foldl (λ html m, html +:+ match_html m) html matches in
  let html := html +:+ "<hr>" in
  html +:+ "<p style='color: #666; font-size: 0.85em; margin-top: 20px;'>This is an automated alert from your Reddit Keyword Monitor.</p>".

(** The subject of the message. *)
Definition email_subject (matches : list match_record) : string :=
  "🚨 Reddit Alert: " +:+ pretty (length matches) +:+ " new match(es) for your keywords".

(** The parts of a block that show a match to the reader: its keywords,
    its title as a link to its URL, and where and when it was posted. *)
Definition html_keywords (m : match_record) : string :=
  ">Keywords:</strong> " +:+ m_keywords m +:+ nl.

Definition html_title_link (m : match_record) : string :=
  "                <strong>Title:</strong> <a href=" +:+ dq +:+ m_url m +:+ dq +:+ " style=" +:+ dq +:+
  "color: #0079D3; text-decoration: none;" +:+ dq +:+ ">" +:+ m_title m +:+ "</a>".

Definition html_origin (m : match_record) : string :=
  "                Subreddit: r/" +:+ m_subreddit m +:+ " | Posted: " +:+ m_created m +:+ nl.

(** [h] starts with [n]. *)
Definition starts (n h : string) : Prop := ∃ post, h = n +:+ post.

Section Driver.
Context {order : SetOrder}.
Variable KEYWORDS : list string.
Variable tz : Z → Z.

(** The jobs that [schedule.run_pending] runs, one after the other, in the
    loop of [main.py]; [jobs] lists the worlds of the jobs that come due.
    Neither [schedule] nor [main.py] catches an exception of a job: it ends
    the loop. *)
Fixpoint run_pending_loop (jobs : list world) : M unit :=
  match jobs with
  | [] => mret tt
  | w :: jobs => check_reddit KEYWORDS tz w.1 w.2 ;; run_pending_loop jobs
  end.

(** [main.py] up to the end of the job number [length jobs]: the check at
    start-up, then the scheduled ones. *)
Definition main (startup : world) (jobs : list world) : M unit :=
  check_reddit KEYWORDS tz startup.1 startup.2 ;; run_pending_loop jobs.

(** The state that a completed cycle leaves. *)
Definition after_cycle (mail_ok : list match_record → bool) (st : state)
    (all_matches : list match_record) (sp sc : gset string) : state :=
  {| files := <[SEEN_COMMENTS_FILE := IdArray (seen_list sc)]>
                (<[SEEN_POSTS_FILE := IdArray (seen_list sp)]> (files st));
     events := events st ++ notification mail_ok all_matches
                 ++ [Dump SEEN_POSTS_FILE (seen_list sp);
                     Dump SEEN_COMMENTS_FILE (seen_list sc)] |}.

End Driver.

(** ** More sample data *)

(** A post of the year 10000, which [datetime] cannot hold. *)
Definition post_year_10000 : item_data :=
  {| d_id := "p3"; d_title := Some "We are hiring"; d_selftext := Some "";
     d_body := None; d_subreddit := Some "jobs";
     d_permalink := Some "/r/jobs/comments/p3/"; d_created_utc := Some 253402300800;
     d_link_title := None |}.

(** A comment on a post whose title names the keyword. *)
Definition comment_on_hiring_post : item_data :=
  {| d_id := "c2"; d_title := None; d_selftext := None;
     d_body := Some "thanks for sharing"; d_subreddit := Some "jobs";
     d_permalink := Some "/r/jobs/comments/p1/c2/"; d_created_utc := Some 1700000120;
     d_link_title := Some "We are HIRING" |}.

(** Post A in capital letters. *)
Definition post_A_shouting : item_data :=
  {| d_id := "p4"; d_title := Some "WE ARE HIRING"; d_selftext := Some "";
     d_body := None; d_subreddit := Some "jobs";
     d_permalink := Some "/r/jobs/comments/p4/"; d_created_utc := Some 1700000000;
     d_link_title := None |}.

(** A feed with a matching post followed by a post of the year 10000. *)
Definition net_with_bad_post : nat → string → page_result :=
  λ _ _, Page [post_A; post_year_10000] None.

(** A record whose title carries markup. *)
Definition record_with_markup : match_record :=
  {| m_keywords := "hiring"; m_title := "<b>We are hiring</b>";
     m_url := "https://reddit.com/r/jobs/comments/p1/"; m_subreddit := "jobs";
     m_created := "2023-11-14 22:13:20"; m_type := "post" |}.

(** A world whose feed carries the post of the year 10000. *)
Definition bad_world : world := (net_with_bad_post, λ _, true).
Definition sample_world : world := (sample_net, λ _, true).

(** A post of the year 702, and a post with an identifier and nothing
    else. *)
Definition post_year_702 : item_data :=
  {| d_id := "p5"; d_title := Some "We are hiring"; d_selftext := Some "";
     d_body := None; d_subreddit := Some "jobs";
     d_permalink := Some "/r/jobs/comments/p5/"; d_created_utc := Some (-40000000000);
     d_link_title := None |}.

Definition plain_post (n : nat) : item_data :=
  {| d_id := ident_of n; d_title := None; d_selftext := None; d_body := None;
     d_subreddit := None; d_permalink := None; d_created_utc := None;
     d_link_title := None |}.

(** A feed of posts that answers with [n] posts in one page; the collector
    does not check the size of a page.  The feed of comments is empty. *)
Definition crowded_net (n : nat) : nat → string → page_result :=
  λ _ batch_url,
    if String.eqb batch_url REDDIT_POSTS_URL
    then Page (plain_post <$> seq 0 n) None
    else Page [] None.

(** * Properties *)

(** ** Seen-item store *)

(** Cutting a list to its last [n] elements, as [save_seen_items] does. *)
Lemma cut_length {A} (n : nat) (l : list A) :
  length (if (n <? length l)%nat then last_n n l else l) = (length l `min` n)%nat.
Proof.
  unfold last_n. destruct (Nat.ltb_spec n (length l)); [rewrite length_drop |]; lia.
Qed.

Lemma cut_below {A} (n : nat) (l : list A) :
  (length l ≤ n)%nat → (if (n <? length l)%nat then last_n n l else l) = l.
Proof. intros Hl. destruct (Nat.ltb_spec n (length l)); [lia | done]. Qed.

Section SeenStore.
Context {order : SetOrder}.

Lemma set_iter_length s : length (set_iter s) = size s.
Proof. by rewrite set_iter_perm. Qed.

Lemma set_iter_NoDup s : NoDup (set_iter s).
Proof. rewrite set_iter_perm. apply NoDup_elements. Qed.

Lemma elem_of_set_iter s x : x ∈ set_iter s ↔ x ∈ s.
Proof. rewrite set_iter_perm. apply elem_of_elements. Qed.

Lemma list_to_set_set_iter s : list_to_set (set_iter s) = s.
Proof. rewrite set_iter_perm. apply list_to_set_elements_L. Qed.

Lemma seen_list_length s : length (seen_list s) = (size s `min` 5000)%nat.
Proof.
  unfold seen_list. rewrite <- set_iter_length. apply cut_length.
Qed.

Lemma seen_list_sublist s : seen_list s `sublist_of` set_iter s.
Proof.
  unfold seen_list, last_n. case_match; [apply sublist_drop | done].
Qed.

Lemma seen_list_NoDup s : NoDup (seen_list s).
Proof. exact (sublist_NoDup _ _ (set_iter_NoDup s) (seen_list_sublist s)). Qed.

Lemma seen_list_subseteq s : list_to_set (seen_list s) ⊆ s.
Proof.
  intros x. rewrite elem_of_list_to_set. intros Hx.
  apply elem_of_set_iter. eapply sublist_subseteq; [apply seen_list_sublist | done].
Qed.

Lemma seen_list_below_cap s : (size s ≤ 5000)%nat → seen_list s = set_iter s.
Proof.
  intros Hs. unfold seen_list. apply cut_below. by rewrite set_iter_length.
Qed.

Lemma size_saved s : size (list_to_set (seen_list s) : gset string) = (size s `min` 5000)%nat.
Proof.
  rewrite size_list_to_set by apply seen_list_NoDup. apply seen_list_length.
Qed.

Lemma seen_list_persisted s : persisted s (seen_list s).
Proof.
  split_and!; [apply seen_list_NoDup | | apply seen_list_length].
  intros x Hx. apply seen_list_subseteq. by apply elem_of_list_to_set.
Qed.

Lemma seen_list_all s x : (size s ≤ 5000)%nat → x ∈ s → x ∈ seen_list s.
Proof. intros Hs Hx. rewrite seen_list_below_cap by done. by apply elem_of_set_iter. Qed.

Lemma load_after_save s filename st :
  ∃ st', save_seen_items s filename st = (Ok tt, st') ∧
         load_seen_items filename st' = (Ok (list_to_set (seen_list s)), st').
Proof.
  eexists. split; [reflexivity |].
  unfold load_seen_items. simpl. by rewrite lookup_insert_eq.
Qed.

End SeenStore.

(** Below the cap the list saved does not depend on the iteration order,
    up to the order of its entries. *)
Lemma seen_list_orders (order order' : SetOrder) (s : gset string) :
  (size s ≤ 5000)%nat → @seen_list order s ≡ₚ @seen_list order' s.
Proof.
  intros Hs. rewrite !seen_list_below_cap by done.
  by rewrite (@set_iter_perm order), (@set_iter_perm order').
Qed.

(** More distinct elements than a list is long: one of them is not in it. *)
Lemma pigeonhole (xs ids : list string) :
  NoDup xs → (length ids < length xs)%nat → ∃ x, x ∈ xs ∧ x ∉ ids.
Proof.
  intros Hnd Hlen.
  destruct (decide (Forall (λ x, x ∈ ids) xs)) as [Hall|Hex].
  - exfalso. assert (xs ⊆+ ids) as Hsub.
    { apply NoDup_submseteq; [done |]. by apply Forall_forall. }
    apply submseteq_length in Hsub. lia.
  - apply not_Forall_Exists in Hex; [| apply _].
    apply Exists_exists in Hex as (x & Hx & Hnot). by exists x.
Qed.

Lemma add_all_list_to_set added s : add_all added s = s ∪ list_to_set added.
Proof.
  revert s. induction added as [|x added IH]; intros s; simpl.
  - change (s = s ∪ ∅). by rewrite (right_id_L ∅ (∪)).
  - change (add_all added ({[x]} ∪ s) = s ∪ ({[x]} ∪ list_to_set added)).
    by rewrite IH, (assoc_L (∪)), (comm_L (∪) s).
Qed.

Lemma add_all_reverse added s : add_all (reverse added) s = add_all added s.
Proof.
  rewrite !add_all_list_to_set. f_equal.
  apply list_to_set_perm_L, reverse_Permutation.
Qed.

#[local] Instance ident_of_inj : Inj (=) (=) ident_of.
Proof.
  intros m n Hmn. unfold ident_of in Hmn. simpl in Hmn.
  injection Hmn as Hmn. exact (inj pretty m n Hmn).
Qed.

Lemma ascending_NoDup : NoDup ascending.
Proof. apply NoDup_fmap_2; [apply _ | apply NoDup_seq]. Qed.

Lemma ascending_length : length ascending = 7000%nat.
Proof. unfold ascending. by rewrite length_fmap, length_seq. Qed.

Lemma last_n_ascending : last_n 5000 ascending = ident_of <$> seq 2000 5000.
Proof.
  unfold last_n. rewrite ascending_length. unfold ascending.
  rewrite <- fmap_drop, drop_seq. done.
Qed.

Lemma last_n_descending : last_n 5000 descending = reverse (ident_of <$> seq 0 5000).
Proof.
  unfold last_n, descending. rewrite length_reverse, ascending_length.
  rewrite drop_reverse, ascending_length. unfold ascending.
  rewrite <- fmap_take, take_seq. done.
Qed.

(** C1.  [save_seen_items] cuts the list at 5000 entries, but the entries it
    keeps are the last 5000 of the set's iteration order, not the last 5000
    that were added.  Whatever the iteration order of the process, one of
    two histories of the same 7000 distinct identifiers (oldest first, or
    newest first) leaves 5000 entries on disk that are not the 5000 most
    recently added: the two histories build the same set, hence the same
    file, while their most recent 5000 identifiers differ. *)
Theorem save_seen_items_not_most_recent {order : SetOrder} :
  ∃ added : list string,
    NoDup added ∧ length added = 7000%nat ∧
    length (seen_list (add_all added ∅)) = 5000%nat ∧
    list_to_set (seen_list (add_all added ∅))
      ≠@{gset string} list_to_set (last_n 5000 added).
Proof.
  assert (Hlen : ∀ added, NoDup added → length added = 7000%nat →
            length (seen_list (add_all added ∅)) = 5000%nat).
  { intros added Hnd Hl. rewrite seen_list_length, add_all_list_to_set.
    rewrite (left_id_L ∅ (∪)), size_list_to_set, Hl by done. reflexivity. }
  destruct (decide (list_to_set (seen_list (add_all ascending ∅))
                    =@{gset string} list_to_set (last_n 5000 ascending)))
    as [Heq|Hne].
  - assert (Hnd : NoDup descending).
    { unfold descending. rewrite reverse_Permutation. apply ascending_NoDup. }
    assert (Hl : length descending = 7000%nat).
    { unfold descending. by rewrite length_reverse, ascending_length. }
    exists descending. split; [done |]. split; [done |].
    split; [by apply Hlen |].
    unfold descending at 1. rewrite add_all_reverse, Heq.
    rewrite last_n_ascending, last_n_descending.
    intros Hsets.
    assert (Hin : ident_of 0 ∈@{gset string}
                    list_to_set (reverse (ident_of <$> seq 0 5000))).
    { rewrite elem_of_list_to_set, elem_of_reverse.
      apply list_elem_of_fmap. exists 0%nat. split; [done |].
      apply elem_of_seq. split; [lia |]. apply Nat.ltb_lt. reflexivity. }
    rewrite <- Hsets, elem_of_list_to_set in Hin.
    apply list_elem_of_fmap in Hin as (n & Hn & Hin).
    apply (inj ident_of) in Hn. subst n.
    apply elem_of_seq in Hin as [Hin _].
    apply Nat.leb_le in Hin. discriminate Hin.
  - exists ascending.
    split; [apply ascending_NoDup |]. split; [apply ascending_length |].
    split; [apply Hlen; [apply ascending_NoDup | apply ascending_length] | done].
Qed.

(** C10.  Below the cap nothing is lost: a set of at most 5000 identifiers
    that is saved and then loaded comes back as the same set. *)
Theorem save_load_roundtrip {order : SetOrder} (s : gset string)
    (filename : string) (st : state) :
  (size s ≤ 5000)%nat →
  ∃ st', save_seen_items s filename st = (Ok tt, st') ∧
         load_seen_items filename st' = (Ok s, st').
Proof.
  intros Hs. destruct (load_after_save s filename st) as (st' & Hsave & Hload).
  exists st'. split; [done |].
  by rewrite Hload, seen_list_below_cap, list_to_set_set_iter.
Qed.

Lemma save_load_roundtrip_witness :
  ∃ st', @save_seen_items trie_order {["p1"; "p2"]} SEEN_POSTS_FILE
           {| files := ∅; events := [] |} = (Ok tt, st') ∧
         load_seen_items SEEN_POSTS_FILE st' = (Ok {["p1"; "p2"]}, st').
Proof.
  apply (@save_load_roundtrip trie_order).
  apply Nat.leb_le. vm_compute. reflexivity.
Defined.

(** Whatever the size of the set, what a load reads back after a save is a
    part of the set, of at most 5000 identifiers. *)
Lemma save_load_bounded {order : SetOrder} (s : gset string)
    (filename : string) (st : state) :
  ∃ st' s', save_seen_items s filename st = (Ok tt, st') ∧
            load_seen_items filename st' = (Ok s', st') ∧
            s' ⊆ s ∧ size s' = (size s `min` 5000)%nat.
Proof.
  destruct (load_after_save s filename st) as (st' & Hsave & Hload).
  exists st', (list_to_set (seen_list s)).
  split_and!; [done | done | apply seen_list_subseteq | apply size_saved].
Qed.



(** ** Paginated collector *)

Section Collector.
Variable net : nat → string → page_result.
Variable url : string.

Lemma continues_page items after :
  continues (Page items after) = true →
  ∃ cursor, after = Some cursor ∧ cursor ≠ "" ∧ items ≠ [] ∧
            batch_url_of url after = url +:+ "&after=" +:+ cursor.
Proof.
  unfold continues, batch_url_of. intros [Ht Hl]%andb_prop.
  rewrite Ht. destruct after as [cursor|]; [| discriminate].
  exists cursor. split_and!; [done | | | done].
  - intros ->. discriminate.
  - intros ->. discriminate.
Qed.

Lemma loop_test_continues items after :
  negb (truthy after) || (length items =? 0)%nat = negb (continues (Page items after)).
Proof. unfold continues. by rewrite negb_andb, negb_involutive. Qed.

Lemma fetch_loop_spec remaining batch_num after all_items trace :
  ∃ new,
    fetch_loop net url remaining batch_num after all_items trace
      = (all_items ++ page_items new, trace ++ new) ∧
    chain net url batch_num after new ∧
    (length new ≤ remaining)%nat ∧
    ((length new < remaining)%nat →
       ∃ call, last new = Some call ∧ continues call.2 = false).
Proof.
  revert batch_num after all_items trace.
  induction remaining as [|remaining IH]; intros batch_num after all_items trace.
  - exists []. simpl. rewrite !app_nil_r.
    split_and!; [done | constructor | done | lia].
  - simpl. destruct (net batch_num (batch_url_of url after)) as [|items after'] eqn:Hnet.
    + exists [(batch_url_of url after, Fail)].
      unfold page_items. simpl. rewrite app_nil_r.
      split_and!; [done | | lia |].
      * rewrite <- Hnet. apply chain_stop. by rewrite Hnet.
      * intros _. by eexists.
    + rewrite loop_test_continues.
      destruct (continues (Page items after')) eqn:Hc; simpl.
      * destruct (IH (S batch_num) after' (all_items ++ items)
                    (trace ++ [(batch_url_of url after, Page items after')]))
          as (new & Hrun & Hchain & Hlen & Hlast).
        exists ((batch_url_of url after, Page items after') :: new).
        rewrite Hrun. unfold page_items. simpl.
        rewrite <- !(assoc_L (++)). simpl.
        split_and!; [done | by apply chain_step | lia |].
        intros Hlt. destruct Hlast as (call & Hcall & Hstop); [lia |].
        exists call. split; [| done].
        destruct new; [discriminate | done].
      * exists [(batch_url_of url after, Page items after')].
        unfold page_items. simpl. rewrite app_nil_r.
        split_and!; [done | | lia |].
        -- rewrite <- Hnet. apply chain_stop. by rewrite Hnet.
        -- intros _. by eexists.
Qed.

Lemma chain_answers n after trace :
  chain net url n after trace →
  ∀ i u r, trace !! i = Some (u, r) → r = net (n + i) u.
Proof.
  induction 1 as [| n after Hc | n after items after' rest Hnet Hc Hrest IH];
    intros i u r Hi.
  - done.
  - destruct i; [| done]. simplify_eq/=. by rewrite Nat.add_0_r.
  - destruct i as [|i]; simplify_eq/=.
    + by rewrite Nat.add_0_r.
    + rewrite <- Nat.add_succ_comm. by apply IH.
Qed.

Lemma chain_first n after u r rest :
  chain net url n after ((u, r) :: rest) → u = batch_url_of url after.
Proof. by inversion 1. Qed.

Lemma chain_next n after trace :
  chain net url n after trace →
  ∀ i u r u' r', trace !! i = Some (u, r) → trace !! S i = Some (u', r') →
    ∃ items cursor, r = Page items (Some cursor) ∧ items ≠ [] ∧ cursor ≠ "" ∧
                    u' = url +:+ "&after=" +:+ cursor.
Proof.
  induction 1 as [| n after Hc | n after items after' rest Hnet Hc Hrest IH];
    intros i u r u' r' Hi HSi.
  - done.
  - done.
  - destruct i as [|i]; simplify_eq/=.
    + destruct (continues_page _ _ Hc) as (cursor & -> & Hne & Hitems & Hurl).
      exists items, cursor. split_and!; [done..|].
      destruct rest as [|[u0 r0] rest]; simplify_eq/=.
      apply chain_first in Hrest. by rewrite Hrest.
    + by eapply IH.
Qed.

End Collector.

(** C3.  The collector makes at most [num_batches] requests (none when
    [num_batches] is 0); every request is answered by the network; the first
    goes to the feed URL and each later one carries the cursor of the page
    before it, which therefore decoded, was not empty and named a cursor: a
    failed page, an empty page or a page without cursor is the last one
    requested.  When fewer than [num_batches] requests were made the last
    page is of that kind.  In particular, when the third page is empty
    the collector makes no fourth request, whatever the maximum, and makes
    exactly three when the first two pages continue. *)
Theorem fetch_multiple_batches_calls (net : nat → string → page_result)
    (url : string) (num_batches : nat) :
  let trace := (fetch_multiple_batches net url num_batches).2 in
  (length trace ≤ num_batches)%nat ∧
  (num_batches = 0%nat → trace = []) ∧
  (∀ i u r, trace !! i = Some (u, r) → r = net i u) ∧
  (∀ u r, trace !! 0%nat = Some (u, r) → u = url) ∧
  (∀ i u r u' r', trace !! i = Some (u, r) → trace !! S i = Some (u', r') →
     ∃ items cursor, r = Page items (Some cursor) ∧ items ≠ [] ∧ cursor ≠ "" ∧
                     u' = url +:+ "&after=" +:+ cursor) ∧
  ((length trace < num_batches)%nat →
     ∃ call, last trace = Some call ∧ continues call.2 = false) ∧
  ((∀ u, children_of (net 2%nat u) = []) → (length trace ≤ 3)%nat) ∧
  ((∀ u, continues (net 0%nat u) = true) → (∀ u, continues (net 1%nat u) = true) →
   (∀ u, children_of (net 2%nat u) = []) → (3 ≤ num_batches)%nat →
   length trace = 3%nat).
Proof.
  unfold fetch_multiple_batches.
  destruct (fetch_loop_spec net url num_batches 0 None [] [])
    as (new & Hrun & Hchain & Hlen & Hlast).
  rewrite Hrun. simpl.
  split_and!.
  - done.
  - intros ->. destruct new; [done | simpl in Hlen; lia].
  - intros i u r Hi. by apply (chain_answers _ _ _ _ _ Hchain) in Hi.
  - intros u r Hi. destruct new as [|[u0 r0] new]; simplify_eq/=.
    by apply chain_first in Hchain.
  - apply (chain_next _ _ _ _ _ Hchain).
  - done.
  - intros Hempty.
    destruct (decide (length new ≤ 3)%nat) as [|Hlong]; [done | exfalso].
    destruct (lookup_lt_is_Some_2 new 2) as [[u r] H2]; [lia |].
    destruct (lookup_lt_is_Some_2 new 3) as [[u' r'] H3]; [lia |].
    destruct (chain_next _ _ _ _ _ Hchain _ _ _ _ _ H2 H3)
      as (items & cursor & -> & Hitems & _).
    apply (chain_answers _ _ _ _ _ Hchain) in H2. simpl in H2.
    specialize (Hempty u). rewrite <- H2 in Hempty. done.
  - intros Hc0 Hc1 Hempty Hn.
    assert (Hle : (length new ≤ 3)%nat).
    { destruct (decide (length new ≤ 3)%nat) as [|Hlong]; [done | exfalso].
      destruct (lookup_lt_is_Some_2 new 2) as [[u r] H2]; [lia |].
      destruct (lookup_lt_is_Some_2 new 3) as [[u' r'] H3]; [lia |].
      destruct (chain_next _ _ _ _ _ Hchain _ _ _ _ _ H2 H3)
        as (items & cursor & -> & Hitems & _).
      apply (chain_answers _ _ _ _ _ Hchain) in H2. simpl in H2.
      specialize (Hempty u). rewrite <- H2 in Hempty. done. }
    destruct (decide (length new = 3)%nat) as [|Hshort]; [done | exfalso].
    destruct Hlast as ([u r] & Hcall & Hstop); [lia |].
    rewrite last_lookup in Hcall.
    pose proof (chain_answers _ _ _ _ _ Hchain _ _ _ Hcall) as Hr.
    simpl in Hr, Hstop. subst r.
    destruct (length new) as [|[|[|n]]]; simpl in Hcall, Hstop;
      [by rewrite Hc0 in Hstop | by rewrite Hc0 in Hstop
      | by rewrite Hc1 in Hstop | lia].
Qed.


Lemma fetch_stub_empty_from_page_3 :
  fetch_multiple_batches stub_empty_from_page_3 REDDIT_POSTS_URL 10
  = ([post_A; post_alpha_beta],
     [(REDDIT_POSTS_URL, Page [post_A] (Some "t3_p1"));
      (REDDIT_POSTS_URL +:+ "&after=t3_p1", Page [post_alpha_beta] (Some "t3_p2"));
      (REDDIT_POSTS_URL +:+ "&after=t3_p2", Page [] (Some "t3_p2"))]).
Proof. reflexivity. Qed.

Lemma fetch_multiple_batches_calls_witness :
  length (fetch_multiple_batches stub_empty_from_page_3 REDDIT_POSTS_URL 10).2 = 3%nat ∧
  (fetch_multiple_batches stub_empty_from_page_3 REDDIT_POSTS_URL 0).2 = [].
Proof.
  split.
  - apply (fetch_multiple_batches_calls stub_empty_from_page_3 REDDIT_POSTS_URL 10);
      [intros u; reflexivity.. | lia].
  - apply (fetch_multiple_batches_calls stub_empty_from_page_3 REDDIT_POSTS_URL 0).
    reflexivity.
Defined.


Lemma fetch_stub_fails_on_page_2 :
  (fetch_multiple_batches stub_fails_on_page_2 REDDIT_POSTS_URL 10).1
  = [post_A; post_alpha_beta].
Proof. reflexivity. Qed.

(** ** Keyword matcher and record builder *)

Lemma append_nil_l (s : string) : "" +:+ s = s.
Proof. reflexivity. Qed.

Lemma append_cons (c : ascii) (s t : string) : String c s +:+ t = String c (s +:+ t).
Proof. reflexivity. Qed.

Lemma prefix_app (n h : string) :
  String.prefix n h = true ↔ ∃ post, h = n +:+ post.
Proof.
  revert h. induction n as [|c n IH]; intros [|c' h]; simpl.
  - split; [by exists "" | done].
  - split; [by exists (String c' h) | done].
  - split; [done | by intros [post ?]].
  - setoid_rewrite append_cons.
    destruct (Ascii.ascii_dec c c') as [->|Hne].
    + rewrite IH. split; intros [post Hpost]; exists post; congruence.
    + split; [done | intros [post ?]; congruence].
Qed.

(** [contains] is the substring relation. *)
Lemma contains_substring (n h : string) :
  contains n h = true ↔ ∃ pre post, h = pre +:+ n +:+ post.
Proof.
  induction h as [|c h IH].
  - change (contains n "") with (String.prefix n "" || false).
    rewrite orb_false_r, prefix_app. split.
    + intros [post ->]. by exists "", post.
    + intros ([|? pre] & post & Hh); [by exists post | done].
  - change (contains n (String c h))
      with (String.prefix n (String c h) || contains n h).
    rewrite orb_true_iff, prefix_app, IH. split.
    + intros [[post ->]|(pre & post & ->)].
      * by exists "", post.
      * by exists (String c pre), post.
    + intros ([|c' pre] & post & Hh).
      * left. by exists post.
      * right. exists pre, post. rewrite append_cons in Hh. congruence.
Qed.

Section Matcher.
Context {order : SetOrder}.
Variable KEYWORDS : list string.
Variable tz : Z → Z.

Lemma match_keywords_from (content : string) (l : list string) (acc : gset string) k :
  k ∈ foldl (λ matched_keywords keyword,
               if contains (lower keyword) content
               then {[keyword]} ∪ matched_keywords
               else matched_keywords) acc l
  ↔ k ∈ acc ∨ (k ∈ l ∧ contains (lower k) content = true).
Proof.
  revert acc. induction l as [|x l IH]; intros acc; simpl.
  - rewrite elem_of_nil. tauto.
  - rewrite IH, elem_of_cons. destruct (contains (lower x) content) eqn:Hx.
    + rewrite elem_of_union, elem_of_singleton. split.
      * intros [[->|?]|[? ?]]; auto.
      * intros [?|[[->|?] ?]]; auto.
    + split.
      * intros [?|[? ?]]; auto.
      * intros [?|[[->|?] ?]]; auto. congruence.
Qed.

Lemma elem_of_match_keywords content k :
  k ∈ match_keywords KEYWORDS content
  ↔ k ∈ KEYWORDS ∧ contains (lower k) content = true.
Proof.
  unfold match_keywords. rewrite match_keywords_from, elem_of_empty. tauto.
Qed.

Lemma process_item_seen item_type item matches n seen :
  d_id item ∈ seen →
  process_item KEYWORDS tz item_type item (matches, n, seen) = Ok (matches, n, seen).
Proof. intros Hin. unfold process_item. by rewrite decide_True. Qed.

Lemma process_item_new item_type item matches n seen :
  d_id item ∉ seen →
  process_item KEYWORDS tz item_type item (matches, n, seen)
  = result_bind (fromtimestamp tz (get (d_created_utc item) 0)) (λ dt,
      Ok (matches ++ new_matches KEYWORDS item_type item dt, S n, {[d_id item]} ∪ seen)).
Proof.
  intros Hin. unfold process_item, new_matches. rewrite decide_False by done.
  destruct (fromtimestamp _ _); simpl; [| done].
  case_decide; by rewrite ?app_nil_r.
Qed.

Lemma process_loop_cons item_type item items acc :
  process_loop KEYWORDS tz item_type (item :: items) acc
  = result_bind (process_item KEYWORDS tz item_type item acc)
      (process_loop KEYWORDS tz item_type items).
Proof. reflexivity. Qed.

Lemma size_new_ids (x : string) (X seen : gset string) :
  x ∉ seen →
  size (({[x]} ∪ X) ∖ seen) = S (size (X ∖ ({[x]} ∪ seen))).
Proof.
  intros Hx.
  replace (({[x]} ∪ X) ∖ seen) with ({[x]} ∪ X ∖ ({[x]} ∪ seen))
    by (apply set_eq; intros y; destruct (decide (y = x)) as [->|]; set_solver).
  rewrite size_union by set_solver. by rewrite size_singleton.
Qed.

Lemma process_loop_sources item_type items matches0 n0 seen0 matches n seen :
  process_loop KEYWORDS tz item_type items (matches0, n0, seen0)
    = Ok (matches, n, seen) →
  ∃ sources recs,
    matches = matches0 ++ recs ∧
    sources `sublist_of` items ∧
    NoDup (d_id <$> sources) ∧
    Forall (λ item, d_id item ∉ seen0) sources ∧
    Forall2 (record_of KEYWORDS tz item_type) sources recs ∧
    n = (n0 + size (list_to_set (d_id <$> items) ∖ seen0))%nat ∧
    seen = seen0 ∪ list_to_set (d_id <$> items).
Proof.
  revert matches0 n0 seen0.
  induction items as [|item items IH]; intros matches0 n0 seen0 Hrun.
  - simpl in Hrun. simplify_eq. exists [], []. rewrite app_nil_r.
    split_and!; [done | done | constructor | done | done | | set_solver].
    change (list_to_set (d_id <$> [])) with (∅ : gset string).
    replace (∅ ∖ seen) with (∅ : gset string) by set_solver.
    rewrite size_empty. lia.
  - rewrite process_loop_cons in Hrun. rewrite fmap_cons, list_to_set_cons.
    destruct (decide (d_id item ∈ seen0)) as [Hin|Hin].
    + rewrite process_item_seen in Hrun by done. simpl in Hrun.
      destruct (IH _ _ _ Hrun) as (sources & recs & -> & Hsub & Hnd & Hnew & Hrec & -> & ->).
      exists sources, recs.
      split_and!; [done | by apply sublist_cons | done | done | done | | set_solver].
      f_equal. f_equal. set_solver.
    + rewrite process_item_new in Hrun by done.
      destruct (fromtimestamp tz (get (d_created_utc item) 0)) as [dt|] eqn:Hdt;
        simpl in Hrun; [| done].
      destruct (IH _ _ _ Hrun) as (sources & recs & -> & Hsub & Hnd & Hnew & Hrec & -> & ->).
      assert (Hnew0 : Forall (λ item0, d_id item0 ∉ seen0) sources).
      { eapply Forall_impl; [exact Hnew |]. set_solver. }
      assert (Hsize : (S n0 + size (list_to_set (d_id <$> items) ∖ ({[d_id item]} ∪ seen0))
                       = n0 + size (({[d_id item]} ∪ list_to_set (d_id <$> items)) ∖ seen0))%nat).
      { rewrite size_new_ids by done. lia. }
      unfold new_matches. case_decide as Hm.
      * exists sources, recs. rewrite app_nil_r.
        split_and!; [done | by apply sublist_cons | done | done | done | done | set_solver].
      * exists (item :: sources), (build_record item_type item (strftime dt)
                 (match_keywords KEYWORDS (item_content item_type item)) :: recs).
        rewrite <- (assoc_L (++)).
        split_and!; [done | by apply sublist_skip | | | | done | set_solver].
        -- rewrite fmap_cons. apply NoDup_cons. split; [| done].
           intros (item0 & Hid & Hin0)%list_elem_of_fmap.
           rewrite Forall_forall in Hnew. specialize (Hnew _ Hin0). set_solver.
        -- by constructor.
        -- constructor; [| done]. by exists dt.
Qed.

(** The only exception of the loop is the one of a timestamp, and it comes
    from an item of the input that is new. *)
Lemma process_loop_raise item_type items matches n seen e :
  process_loop KEYWORDS tz item_type items (matches, n, seen) = Raise e →
  ∃ item, item ∈ items ∧ (d_id item ∉ seen) ∧
          fromtimestamp tz (get (d_created_utc item) 0) = Raise e.
Proof.
  revert matches n seen.
  induction items as [|item items IH]; intros matches n seen Hrun; [done |].
  rewrite process_loop_cons in Hrun.
  destruct (decide (d_id item ∈ seen)) as [Hin|Hin].
  - rewrite process_item_seen in Hrun by done.
    destruct (IH _ _ _ Hrun) as (item' & ? & ? & ?).
    exists item'. split_and!; [by apply list_elem_of_further | done..].
  - rewrite process_item_new in Hrun by done.
    destruct (fromtimestamp tz (get (d_created_utc item) 0)) as [dt|e'] eqn:Hdt;
      simpl in Hrun.
    + destruct (IH _ _ _ Hrun) as (item' & ? & Hnew & ?).
      exists item'. split_and!; [by apply list_elem_of_further | set_solver | done].
    + simplify_eq. exists item. split_and!; [apply list_elem_of_here | done..].
Qed.

End Matcher.

(** ** Dates *)

Lemma shape_app (s t : string) : shape (s +:+ t) = shape s +:+ shape t.
Proof.
  induction s as [|c s IH]; [done |].
  rewrite append_cons. simpl. by rewrite IH, append_cons.
Qed.

Lemma shape_digit (n : Z) : 0 ≤ n ≤ 9 → shape_ascii (digit n) = "d"%char.
Proof.
  intros Hn.
  assert (n = 0 ∨ n = 1 ∨ n = 2 ∨ n = 3 ∨ n = 4 ∨ n = 5 ∨ n = 6 ∨ n = 7
          ∨ n = 8 ∨ n = 9) as Hcases by lia.
  repeat destruct Hcases as [->|Hcases]; try reflexivity.
  by subst n.
Qed.

Lemma shape_pad2 (n : Z) : 0 ≤ n ≤ 99 → shape (pad2 n) = "dd".
Proof.
  intros Hn. unfold pad2. simpl.
  rewrite !shape_digit; [done | |]; Z.div_mod_to_equations; lia.
Qed.

Lemma shape_pretty_N_char (k : N) : shape_ascii (pretty_N_char k) = "d"%char.
Proof. unfold pretty_N_char. by repeat case_match. Qed.

Lemma shape_year (y : Z) : 1000 ≤ y ≤ 9999 → shape (pretty y) = "dddd".
Proof.
  intros Hy. destruct y as [|p|p]; try lia.
  unfold pretty, pretty_Z, pretty, pretty_positive, pretty, pretty_N.
  rewrite decide_False by done.
  assert (Hdiv : ((((N.pos p `div` 10) `div` 10) `div` 10) `div` 10 = 0)%N).
  { zify. Z.div_mod_to_equations. lia. }
  rewrite pretty_N_go_step by lia.
  rewrite pretty_N_go_step by (zify; Z.div_mod_to_equations; lia).
  rewrite pretty_N_go_step by (zify; Z.div_mod_to_equations; lia).
  rewrite pretty_N_go_step by (zify; Z.div_mod_to_equations; lia).
  rewrite Hdiv, pretty_N_go_0. simpl.
  by rewrite !shape_pretty_N_char.
Qed.

Lemma civil_from_days_range (days : Z) :
  let '(y, m, d) := civil_from_days days in
  1 ≤ m ≤ 12 ∧ 1 ≤ d ≤ 31 ∧
  400 * ((days + 719468) `div` 146097) ≤ y ≤ 400 * ((days + 719468) `div` 146097) + 400.
Proof.
  unfold civil_from_days.
  set (z := days + 719468).
  set (era := z `div` 146097).
  set (doe := z - era * 146097).
  assert (Hdoe : 0 ≤ doe ≤ 146096).
  { unfold doe, era. Z.div_mod_to_equations. lia. }
  clearbody doe. clearbody era. clear z.
  set (yoe := (doe - doe `div` 1460 + doe `div` 36524 - doe `div` 146096) `div` 365).
  set (doy := doe - (365 * yoe + yoe `div` 4 - yoe `div` 100)).
  assert (Hyoe : 0 ≤ yoe ≤ 399 ∧ 0 ≤ doy ≤ 365).
  { unfold doy, yoe. Z.div_mod_to_equations. lia. }
  clearbody doy. clearbody yoe. destruct Hyoe as [Hyoe Hdoy].
  set (mp := (5 * doy + 2) `div` 153).
  assert (Hmp : 0 ≤ mp ≤ 11 ∧ 1 ≤ doy - (153 * mp + 2) `div` 5 + 1 ≤ 31).
  { unfold mp. Z.div_mod_to_equations. lia. }
  clearbody mp. destruct Hmp as [Hmp Hd].
  destruct (Z.ltb_spec mp 10); case_match; lia.
Qed.

Lemma fromtimestamp_total (tz : Z → Z) (t : Z) :
  0 ≤ t < 100000000000 → -86400 < tz t < 86400 →
  ∃ dt, fromtimestamp tz t = Ok dt.
Proof.
  intros Ht Htz. unfold fromtimestamp.
  pose proof (civil_from_days_range ((t + tz t) `div` 86400)) as Hciv.
  destruct (civil_from_days ((t + tz t) `div` 86400)) as [[y m] d].
  destruct Hciv as (Hm & Hd & Hy).
  assert (1 ≤ y ≤ 9999) as [Hy1 Hy2].
  { revert Hy. Z.div_mod_to_equations. lia. }
  destruct (Z.leb_spec 1 y), (Z.leb_spec y 9999); try lia.
  by eexists.
Qed.

Lemma strftime_shape (dt : datetime) :
  1000 ≤ year dt ≤ 9999 → 1 ≤ month dt ≤ 12 → 1 ≤ day dt ≤ 31 →
  0 ≤ hour dt ≤ 23 → 0 ≤ minute dt ≤ 59 → 0 ≤ second dt ≤ 59 →
  shape (strftime dt) = "dddd-dd-dd dd:dd:dd".
Proof.
  intros Hy Hm Hd Hh Hmi Hs. unfold strftime.
  rewrite !shape_app, shape_year, !shape_pad2 by lia. reflexivity.
Qed.

(** *** The calendar of [fromtimestamp] *)

Lemma is_leap_spec y :
  (is_leap y = true ∧ y `mod` 4 = 0 ∧ (y `mod` 100 ≠ 0 ∨ y `mod` 400 = 0)) ∨
  (is_leap y = false ∧ (y `mod` 4 ≠ 0 ∨ (y `mod` 100 = 0 ∧ y `mod` 400 ≠ 0))).
Proof.
  unfold is_leap.
  destruct (Z.eqb_spec (y `mod` 4) 0), (Z.eqb_spec (y `mod` 100) 0),
    (Z.eqb_spec (y `mod` 400) 0); simpl; intuition lia.
Qed.

Ltac decide_tests :=
  repeat match goal with
  | |- context [if ?b then _ else _] =>
      let v := eval vm_compute in b in
      match v with true => idtac | false => idtac end;
      change b with v; cbv iota
  end.

Ltac split_leap :=
  repeat match goal with
  | |- context [is_leap ?y] => destruct (is_leap_spec y) as [(-> & ?)|(-> & ?)]
  end.

Lemma month_cases (m : Z) :
  1 ≤ m ≤ 12 →
  m = 1 ∨ m = 2 ∨ m = 3 ∨ m = 4 ∨ m = 5 ∨ m = 6 ∨ m = 7 ∨ m = 8 ∨ m = 9 ∨ m = 10
  ∨ m = 11 ∨ m = 12.
Proof. lia. Qed.

(** A date of the year [y] lies after the last day of the year before and
    not after the last day of [y]. *)
Lemma ordinal_in_year (y m d : Z) :
  1 ≤ m ≤ 12 → 1 ≤ d ≤ days_in_month y m →
  days_before_year y < ordinal y m d ≤ days_before_year (y + 1).
Proof.
  intros Hm Hd. apply month_cases in Hm. revert Hd.
  unfold ordinal, days_before_year, days_before_month.
  repeat destruct Hm as [->|Hm]; [..|subst m].
  all: simpl seqZ; simpl fmap; simpl foldr; unfold days_in_month; decide_tests.
  all: split_leap; intros Hd; Z.div_mod_to_equations; lia.
Qed.

Lemma days_before_year_mono (y y' : Z) : y ≤ y' → days_before_year y ≤ days_before_year y'.
Proof. unfold days_before_year. intros Hy. Z.div_mod_to_equations. lia. Qed.

Lemma ordinal_epoch : ordinal 1970 1 1 = 719163.
Proof. reflexivity. Qed.


(** [civil_from_days] inverts the count of days of the calendar. *)
Lemma civil_from_days_ordinal (days : Z) :
  let '(y, m, d) := civil_from_days days in
  1 ≤ m ≤ 12 ∧ 1 ≤ d ≤ days_in_month y m ∧ ordinal y m d - ordinal 1970 1 1 = days.
Proof.
  rewrite ordinal_epoch. unfold civil_from_days.
  set (z := days + 719468).
  set (era := z `div` 146097).
  set (doe := z - era * 146097).
  assert (Hdoe : 0 ≤ doe ≤ 146096 ∧ days = era * 146097 + doe - 719468).
  { unfold doe, era, z. Z.div_mod_to_equations. lia. }
  clearbody doe. clearbody era. clear z. destruct Hdoe as [Hdoe ->].
  set (yoe := (doe - doe `div` 1460 + doe `div` 36524 - doe `div` 146096) `div` 365).
  set (doy := doe - (365 * yoe + yoe `div` 4 - yoe `div` 100)).
  assert (Hyoe : 0 ≤ yoe ≤ 399 ∧ 0 ≤ doy ≤ 365 ∧
                 doe = doy + 365 * yoe + yoe `div` 4 - yoe `div` 100 ∧
                 (doy = 365 →
                  (yoe + 1) `mod` 4 = 0 ∧ ((yoe + 1) `mod` 100 ≠ 0 ∨ yoe = 399))).
  { unfold doy, yoe. Z.div_mod_to_equations. lia. }
  clearbody doy. clearbody yoe. destruct Hyoe as (Hyoe & Hdoy & -> & Hleap).
  set (mp := (5 * doy + 2) `div` 153).
  assert (Hmp : 0 ≤ mp ≤ 11 ∧ mp = (5 * doy + 2) `div` 153).
  { unfold mp. split; [Z.div_mod_to_equations; lia | done]. }
  clearbody mp. destruct Hmp as [Hmp Hmpdef].
  assert (mp = 0 ∨ mp = 1 ∨ mp = 2 ∨ mp = 3 ∨ mp = 4 ∨ mp = 5 ∨ mp = 6 ∨ mp = 7 ∨
          mp = 8 ∨ mp = 9 ∨ mp = 10 ∨ mp = 11) as Hcases by lia.
  unfold ordinal, days_before_year, days_before_month.
  repeat destruct Hcases as [Hc|Hcases]; [..|rename Hcases into Hc];
    rewrite Hc in *; clear Hc.
  all: decide_tests; simpl seqZ; simpl fmap; simpl foldr; unfold days_in_month;
    decide_tests; split_leap.
  all: Z.div_mod_to_equations; lia.
Qed.

(** The fields of [fromtimestamp tz t] are the date and the time of day of
    the instant [t] on the clock of the local time zone. *)
Lemma fromtimestamp_civil_time (tz : Z → Z) (t : Z) (dt : datetime) :
  fromtimestamp tz t = Ok dt → civil_time dt (t + tz t) ∧ 1 ≤ year dt ≤ 9999.
Proof.
  unfold fromtimestamp, civil_time.
  pose proof (civil_from_days_ordinal ((t + tz t) `div` 86400)) as Hciv.
  destruct (civil_from_days ((t + tz t) `div` 86400)) as [[y m] d].
  destruct Hciv as (Hm & Hd & Hord).
  destruct (Z.leb_spec 1 y), (Z.leb_spec y 9999); simpl; try done.
  intros [= <-]. simpl. rewrite Hord.
  split_and!; try lia; Z.div_mod_to_equations; lia.
Qed.

Lemma civil_time_year_from (dt : datetime) (local : Z) (y0 : Z) :
  civil_time dt local →
  (days_before_year y0 + 1 - ordinal 1970 1 1) * 86400 ≤ local → y0 ≤ year dt.
Proof.
  intros (Hm & Hd & Hh & Hmi & Hs & Hlocal) Hfrom.
  destruct (Z.le_gt_cases y0 (year dt)) as [|Hlt]; [done | exfalso].
  pose proof (ordinal_in_year _ _ _ Hm Hd) as [_ Hord].
  pose proof (days_before_year_mono (year dt + 1) y0 ltac:(lia)). lia.
Qed.

Lemma civil_time_year_before (dt : datetime) (local : Z) (y0 : Z) :
  civil_time dt local →
  local < (days_before_year y0 + 1 - ordinal 1970 1 1) * 86400 → year dt < y0.
Proof.
  intros (Hm & Hd & Hh & Hmi & Hs & Hlocal) Hbefore.
  destruct (Z.lt_ge_cases (year dt) y0) as [|Hge]; [done | exfalso].
  pose proof (ordinal_in_year _ _ _ Hm Hd) as [Hord _].
  pose proof (days_before_year_mono y0 (year dt) ltac:(lia)). lia.
Qed.

(** The first second of the year 1000, of the year 1 and of the year 10000,
    counted from the epoch. *)
Lemma first_seconds :
  (days_before_year 1000 + 1 - ordinal 1970 1 1) * 86400 = -30610224000 ∧
  (days_before_year 1 + 1 - ordinal 1970 1 1) * 86400 = -62135596800 ∧
  (days_before_year 10000 + 1 - ordinal 1970 1 1) * 86400 = 253402300800.
Proof. split_and!; reflexivity. Qed.

Lemma fromtimestamp_year_1000 (tz : Z → Z) (t : Z) (dt : datetime) :
  fromtimestamp tz t = Ok dt → -30610224000 ≤ t + tz t → 1000 ≤ year dt ≤ 9999.
Proof.
  intros [Hciv Hy]%fromtimestamp_civil_time Hfrom. split; [| lia].
  apply (civil_time_year_from _ _ 1000 Hciv).
  destruct first_seconds as (-> & _). done.
Qed.

(** Outside the years 1 to 9999 of local time [fromtimestamp] raises. *)
Lemma fromtimestamp_out_of_range (tz : Z → Z) (t : Z) :
  t + tz t < -62135596800 ∨ 253402300800 ≤ t + tz t →
  ∃ e, fromtimestamp tz t = Raise e.
Proof.
  intros Hout. destruct (fromtimestamp tz t) as [dt|e] eqn:Hdt; [exfalso | by eexists].
  apply fromtimestamp_civil_time in Hdt as [Hciv Hy].
  destruct first_seconds as (_ & H1 & H10000).
  destruct Hout as [Hlow|Hhigh].
  - pose proof (civil_time_year_before _ _ 1 Hciv) as Hlt. rewrite H1 in Hlt. lia.
  - pose proof (civil_time_year_from _ _ 10000 Hciv) as Hge. rewrite H10000 in Hge. lia.
Qed.

(** *** Reading [strftime] back *)
Lemma digit_value_digit (n : Z) : 0 ≤ n ≤ 9 → digit_value (digit n) = Some n.
Proof.
  intros Hn.
  assert (n = 0 ∨ n = 1 ∨ n = 2 ∨ n = 3 ∨ n = 4 ∨ n = 5 ∨ n = 6 ∨ n = 7
          ∨ n = 8 ∨ n = 9) as Hcases by lia.
  repeat destruct Hcases as [->|Hcases]; try reflexivity.
  by subst n.
Qed.

Lemma int_pad2 (n : Z) :
  0 ≤ n ≤ 99 → String.length (pad2 n) = 2%nat ∧ int (pad2 n) = Some n.
Proof.
  intros Hn. split; [done |]. unfold pad2, int, digits_value.
  rewrite !digit_value_digit by (Z.div_mod_to_equations; lia).
  simpl String.length. f_equal.
  change (10 ^ Z.of_nat 1) with 10. change (10 ^ Z.of_nat 0) with 1.
  Z.div_mod_to_equations. lia.
Qed.

Lemma digit_value_pretty_N_char (k : N) :
  (k < 10)%N → digit_value (pretty_N_char k) = Some (Z.of_N k).
Proof.
  intros Hk.
  assert (k = 0 ∨ k = 1 ∨ k = 2 ∨ k = 3 ∨ k = 4 ∨ k = 5 ∨ k = 6 ∨ k = 7
          ∨ k = 8 ∨ k = 9)%N as Hcases by lia.
  repeat destruct Hcases as [->|Hcases]; try reflexivity.
  by subst k.
Qed.

Lemma digits_value_pretty_N_go (x : N) (s : string) (v : Z) :
  digits_value s = Some v →
  digits_value (pretty_N_go x s) = Some (Z.of_N x * 10 ^ Z.of_nat (String.length s) + v).
Proof.
  revert s v. induction (N.lt_wf_0 x) as [x _ IH]. intros s v Hs.
  destruct (decide (x = 0)%N) as [->|Hx].
  - by rewrite pretty_N_go_0, Hs.
  - rewrite pretty_N_go_step by lia.
    assert (Hstep : digits_value (String (pretty_N_char (x `mod` 10)) s)
                    = Some (Z.of_N (x `mod` 10) * 10 ^ Z.of_nat (String.length s) + v)).
    { simpl. rewrite digit_value_pretty_N_char, Hs; [done |]. by apply N.mod_lt. }
    assert (Hlt : (x `div` 10 < x)%N) by (apply N.div_lt; lia).
    rewrite (IH _ Hlt _ _ Hstep).
    f_equal. simpl String.length. rewrite Nat2Z.inj_succ, Z.pow_succ_r by lia.
    rewrite N2Z.inj_div, N2Z.inj_mod.
    pose proof (Z.div_mod (Z.of_N x) 10 ltac:(lia)). nia.
Qed.

Lemma pretty_N_go_length (x : N) (s : string) :
  (String.length s ≤ String.length (pretty_N_go x s))%nat.
Proof.
  revert s. induction (N.lt_wf_0 x) as [x _ IH]. intros s.
  destruct (decide (x = 0)%N) as [->|Hx]; [by rewrite pretty_N_go_0 |].
  rewrite pretty_N_go_step by lia.
  etrans; [| apply IH, N.div_lt; lia]. simpl. lia.
Qed.

Lemma int_pretty (y : Z) : 1 ≤ y → int (pretty y) = Some y.
Proof.
  intros Hy. destruct y as [|p|p]; try lia.
  unfold pretty, pretty_Z, pretty, pretty_positive, pretty, pretty_N.
  rewrite decide_False by done.
  pose proof (pretty_N_go_length (N.pos p `div` 10)
                (String (pretty_N_char (N.pos p `mod` 10)) "")) as Hlen.
  rewrite <- pretty_N_go_step in Hlen by lia.
  unfold int. destruct (pretty_N_go (N.pos p) "") eqn:Hgo; [simpl in Hlen; lia |].
  rewrite <- Hgo. rewrite (digits_value_pretty_N_go _ "" 0) by done.
  f_equal. simpl. lia.
Qed.

Lemma strftime_reads_as (dt : datetime) :
  1 ≤ year dt → 0 ≤ month dt ≤ 99 → 0 ≤ day dt ≤ 99 →
  0 ≤ hour dt ≤ 99 → 0 ≤ minute dt ≤ 99 → 0 ≤ second dt ≤ 99 →
  reads_as (strftime dt) dt.
Proof.
  intros Hy Hm Hd Hh Hmi Hs.
  exists (pretty (year dt)), (pad2 (month dt)), (pad2 (day dt)), (pad2 (hour dt)),
    (pad2 (minute dt)), (pad2 (second dt)).
  split_and!; [done | by apply int_pretty |].
  repeat constructor; by apply int_pad2.
Qed.

(** The model of [fromtimestamp] and [strftime] on known instants: the
    epoch, a leap day seen from UTC+05:30, the last second of year 9999, and
    the first instant that [datetime] cannot hold. *)
Example strftime_known_instants :
  let created tz t := result_bind (fromtimestamp tz t) (λ dt, Ok (strftime dt)) in
  created utc 0 = Ok "1970-01-01 00:00:00" ∧
  created utc 1700000000 = Ok "2023-11-14 22:13:20" ∧
  created (λ _, 19800) 951782400 = Ok "2000-02-29 05:30:00" ∧
  created utc 253402300799 = Ok "9999-12-31 23:59:59" ∧
  created utc 253402300800 = Raise ValueError.
Proof. split_and!; vm_compute; reflexivity. Qed.

Lemma str_prefix_length (n : nat) (s : string) :
  String.length (str_prefix n s) = (n `min` String.length s)%nat.
Proof.
  unfold str_prefix. revert s. induction n as [|n IH]; intros [|c s]; simpl; auto.
Qed.

Lemma str_prefix_prefix (n : nat) (s : string) :
  ∃ rest, s = str_prefix n s +:+ rest.
Proof.
  unfold str_prefix. revert s. induction n as [|n IH]; intros [|c s]; simpl.
  - by exists "".
  - by exists (String c s).
  - by exists "".
  - destruct (IH s) as [rest Hrest]. exists rest.
    rewrite append_cons. by rewrite <- Hrest.
Qed.

(** C9.  In one call of [process_items] the records come, one for one and
    in order, from items of the input whose identifiers are pairwise
    distinct and all new: an identifier that occurs several times gives at
    most one record.  [new_items_checked] is the number of distinct new
    identifiers, so each is counted once, and all identifiers of the input
    end up in the seen set. *)
Theorem process_items_each_id_once {order : SetOrder} (KEYWORDS : list string)
    (tz : Z → Z) (items : list item_data) (seen : gset string)
    (item_type : string) matches n seen' :
  process_items KEYWORDS tz items seen item_type = Ok (matches, n, seen') →
  ∃ sources,
    sources `sublist_of` items ∧
    NoDup (d_id <$> sources) ∧
    Forall (λ item, d_id item ∉ seen) sources ∧
    Forall2 (record_of KEYWORDS tz item_type) sources matches ∧
    (length matches ≤ n)%nat ∧
    n = size (list_to_set (d_id <$> items) ∖ seen) ∧
    seen' = seen ∪ list_to_set (d_id <$> items).
Proof.
  intros Hrun. apply process_loop_sources in Hrun
    as (sources & recs & -> & Hsub & Hnd & Hnew & Hrec & -> & ->).
  exists sources. simpl. split_and!; try done.
  rewrite <- (Forall2_length _ _ _ Hrec), <- (length_fmap d_id).
  rewrite <- (size_list_to_set (C:=gset string)) by done.
  apply subseteq_size. intros x [item [-> Hin]]%elem_of_list_to_set%list_elem_of_fmap.
  apply elem_of_difference. split.
  - apply elem_of_list_to_set, list_elem_of_fmap. exists item. split; [done |].
    eapply sublist_subseteq; [exact Hsub | done].
  - rewrite Forall_forall in Hnew. by apply Hnew.
Qed.

Lemma process_items_each_id_once_witness :
  ∃ sources,
    sources `sublist_of` [post_A; post_A] ∧
    NoDup (d_id <$> sources) ∧
    Forall (λ item, d_id item ∉ (∅ : gset string)) sources ∧
    Forall2 (@record_of trie_order ["hiring"] utc "post") sources
      [@build_record trie_order "post" post_A "2023-11-14 22:13:20" {["hiring"]}] ∧
    (length [@build_record trie_order "post" post_A "2023-11-14 22:13:20" {["hiring"]}]
       ≤ 1)%nat ∧
    1%nat = size (list_to_set (d_id <$> [post_A; post_A]) ∖ (∅ : gset string)) ∧
    ({["p1"]} : gset string) = ∅ ∪ list_to_set (d_id <$> [post_A; post_A]).
Proof.
  apply (@process_items_each_id_once trie_order ["hiring"] utc [post_A; post_A] ∅ "post").
  vm_compute. reflexivity.
Defined.

(** The end-to-end scenario: post A gives one record for [hiring]; seen
    again, it gives none; comment B gives none and is marked as seen. *)
Example end_to_end_scenario :
  @process_items trie_order ["hiring"] utc [post_A] ∅ "post"
    = Ok ([@build_record trie_order "post" post_A "2023-11-14 22:13:20" {["hiring"]}],
          1%nat, {["p1"]}) ∧
  m_keywords (@build_record trie_order "post" post_A "2023-11-14 22:13:20" {["hiring"]})
    = "hiring" ∧
  @process_items trie_order ["hiring"] utc [post_A] {["p1"]} "post"
    = Ok ([], 0%nat, {["p1"]}) ∧
  @process_items trie_order ["hiring"] utc [comment_B] ∅ "comment"
    = Ok ([], 1%nat, {["c1"]}).
Proof. split_and!; vm_compute; reflexivity. Qed.




(** The vocabulary on known instants: the leap day seen from UTC+05:30 and
    the post of the year 702. *)
Example civil_time_known_instants :
  civil_time {| year := 2000; month := 2; day := 29; hour := 5; minute := 30; second := 0 |}
    (951782400 + 19800) ∧
  reads_as "2000-02-29 05:30:00"
    {| year := 2000; month := 2; day := 29; hour := 5; minute := 30; second := 0 |} ∧
  civil_time {| year := 702; month := 6; day := 15; hour := 0; minute := 53; second := 20 |}
    (-40000000000).
Proof.
  split_and!.
  - vm_compute. by split_and!.
  - exists "2000", "02", "29", "05", "30", "00". split_and!; [done..|]. by repeat constructor.
  - vm_compute. by split_and!.
Qed.




(** C7.  The keyword string of a record follows the iteration order of the
    set of matched keywords.  Two processes whose sets iterate in different
    orders give, for the same item and the same set of matched keywords,
    records that differ in their keyword strings and in nothing else. *)
Theorem keywords_rendering_depends_on_set_order :
  let matched := match_keywords ["alpha"; "beta"] (item_content "post" post_alpha_beta) in
  let r1 := @build_record trie_order "post" post_alpha_beta "2023-11-14 22:13:20" matched in
  let r2 := @build_record reversed_order "post" post_alpha_beta "2023-11-14 22:13:20" matched in
  matched = {["alpha"; "beta"]} ∧
  @process_items trie_order ["alpha"; "beta"] utc [post_alpha_beta] ∅ "post"
    = Ok ([r1], 1%nat, {["p2"]}) ∧
  @process_items reversed_order ["alpha"; "beta"] utc [post_alpha_beta] ∅ "post"
    = Ok ([r2], 1%nat, {["p2"]}) ∧
  m_keywords r1 = "alpha, beta" ∧
  m_keywords r2 = "beta, alpha" ∧
  m_keywords r1 ≠ m_keywords r2.
Proof. split_and!; vm_compute; first [reflexivity | discriminate]. Qed.

(** Within one process the string is a function of the matched keywords:
    the keywords, each once, in the iteration order of the process. *)
Lemma keywords_rendering_permutation {order : SetOrder} item_type item created
    (matched : gset string) :
  ∃ l, l ≡ₚ elements matched ∧
       m_keywords (build_record item_type item created matched) = join ", " l.
Proof. exists (set_iter matched). split; [apply set_iter_perm | done]. Qed.

(** ** The cycle *)

Lemma seen_files_differ : SEEN_POSTS_FILE ≠ SEEN_COMMENTS_FILE.
Proof. discriminate. Qed.

Section Cycle.
Context {order : SetOrder}.
Variable KEYWORDS : list string.
Variable tz : Z → Z.
Variable net : nat → string → page_result.
Variable mail_ok : list match_record → bool.

Lemma load_seen_items_state filename st r st' :
  load_seen_items filename st = (r, st') → st' = st.
Proof.
  unfold load_seen_items. destruct (files st !! filename) as [[|ids]|]; congruence.
Qed.

Lemma dispatches_notification all_matches :
  dispatches (notification mail_ok all_matches)
  = if decide (all_matches = []) then [] else [all_matches].
Proof. destruct all_matches; reflexivity. Qed.

Lemma dispatches_app evs1 evs2 :
  dispatches (evs1 ++ evs2) = dispatches evs1 ++ dispatches evs2.
Proof. apply omap_app. Qed.

(** A cycle that gets past the loads and the two calls of [process_items]
    runs to its end. *)
Lemma check_reddit_run st seen_posts seen_comments pm pn sp cm cn sc :
  load_seen_items SEEN_POSTS_FILE st = (Ok seen_posts, st) →
  load_seen_items SEEN_COMMENTS_FILE st = (Ok seen_comments, st) →
  process_items KEYWORDS tz (fetch_multiple_batches net REDDIT_POSTS_URL 10).1
    seen_posts "post" = Ok (pm, pn, sp) →
  process_items KEYWORDS tz (fetch_multiple_batches net REDDIT_COMMENTS_URL 10).1
    seen_comments "comment" = Ok (cm, cn, sc) →
  check_reddit KEYWORDS tz net mail_ok st
  = (Ok tt,
     {| files := <[SEEN_COMMENTS_FILE := IdArray (seen_list sc)]>
                   (<[SEEN_POSTS_FILE := IdArray (seen_list sp)]> (files st));
        events := events st ++ notification mail_ok (pm ++ cm)
                    ++ [Dump SEEN_POSTS_FILE (seen_list sp);
                        Dump SEEN_COMMENTS_FILE (seen_list sc)] |}).
Proof.
  intros Hlp Hlc Hpp Hpc. unfold check_reddit, mbind, M_bind.
  rewrite Hlp, Hlc. unfold lift. rewrite Hpp, Hpc.
  unfold notification, send_email, save_seen_items, dump, print, emit, mret, M_ret,
    mbind, M_bind.
  change ([] ++ pm) with pm.
  destruct (pm ++ cm) as [|r all_matches]; simpl.
  - by rewrite <- !(assoc_L (++)).
  - destruct (mail_ok (r :: all_matches)); simpl; by rewrite <- !(assoc_L (++)).
Qed.

(** A cycle that does not get that far raises before the notification
    step, and leaves the files and the events as they were. *)
Lemma check_reddit_cases st :
  (∃ seen_posts seen_comments pm pn sp cm cn sc,
     load_seen_items SEEN_POSTS_FILE st = (Ok seen_posts, st) ∧
     load_seen_items SEEN_COMMENTS_FILE st = (Ok seen_comments, st) ∧
     process_items KEYWORDS tz (fetch_multiple_batches net REDDIT_POSTS_URL 10).1
       seen_posts "post" = Ok (pm, pn, sp) ∧
     process_items KEYWORDS tz (fetch_multiple_batches net REDDIT_COMMENTS_URL 10).1
       seen_comments "comment" = Ok (cm, cn, sc)) ∨
  ((∃ e, check_reddit KEYWORDS tz net mail_ok st = (Raise e, st)) ∧
   ∀ seen_posts seen_comments pm pn sp cm cn sc,
     load_seen_items SEEN_POSTS_FILE st = (Ok seen_posts, st) →
     load_seen_items SEEN_COMMENTS_FILE st = (Ok seen_comments, st) →
     process_items KEYWORDS tz (fetch_multiple_batches net REDDIT_POSTS_URL 10).1
       seen_posts "post" = Ok (pm, pn, sp) →
     process_items KEYWORDS tz (fetch_multiple_batches net REDDIT_COMMENTS_URL 10).1
       seen_comments "comment" = Ok (cm, cn, sc) →
     False).
Proof.
  unfold check_reddit, mbind, M_bind.
  destruct (load_seen_items SEEN_POSTS_FILE st) as [[seen_posts|e] st1] eqn:Hlp;
    pose proof (load_seen_items_state _ _ _ _ Hlp) as ->;
    [| right; split; [by eexists | congruence]].
  destruct (load_seen_items SEEN_COMMENTS_FILE st) as [[seen_comments|e] st1] eqn:Hlc;
    pose proof (load_seen_items_state _ _ _ _ Hlc) as ->;
    [| right; split; [by eexists | congruence]].
  unfold lift.
  destruct (process_items KEYWORDS tz (fetch_multiple_batches net REDDIT_POSTS_URL 10).1
              seen_posts "post") as [[[pm pn] sp]|e] eqn:Hpp.
  2: { right. split; [by eexists |]. intros ???????? [= <-] _ Hpp' _. congruence. }
  destruct (process_items KEYWORDS tz (fetch_multiple_batches net REDDIT_COMMENTS_URL 10).1
              seen_comments "comment") as [[[cm cn] sc]|e] eqn:Hpc.
  2: { right. split; [by eexists |]. intros ???????? _ [= <-] _ Hpc'. congruence. }
  left. by exists seen_posts, seen_comments, pm, pn, sp, cm, cn, sc.
Qed.

End Cycle.



Lemma crowded_posts n :
  (fetch_multiple_batches (crowded_net n) REDDIT_POSTS_URL 10).1 = plain_post <$> seq 0 n.
Proof. reflexivity. Qed.

Lemma crowded_comments n :
  (fetch_multiple_batches (crowded_net n) REDDIT_COMMENTS_URL 10).1 = [].
Proof. reflexivity. Qed.

Lemma plain_post_ids (l : list nat) : d_id <$> (plain_post <$> l) = ident_of <$> l.
Proof. by rewrite <- list_fmap_compose. Qed.

(** A cycle over the crowded feed, from empty files. *)
Lemma crowded_cycle {order : SetOrder} (n : nat) (st : state) :
  files st = ∅ → (5000 < n)%nat →
  let '(r, st') := check_reddit ["hiring"] utc (crowded_net n) (λ _, true) st in
  r = Ok tt ∧
  dispatches (events st') = dispatches (events st) ∧
  ∃ item ids,
    item ∈ (fetch_multiple_batches (crowded_net n) REDDIT_POSTS_URL 10).1 ∧
    files st' !! SEEN_POSTS_FILE = Some (IdArray ids) ∧
    d_id item ∉ ids.
Proof.
  intros Hfiles Hn.
  destruct (process_items ["hiring"] utc (plain_post <$> seq 0 n) ∅ "post")
    as [[[pm pn] sp]|e] eqn:Hpp.
  2: { apply process_loop_raise in Hpp as (item & Hin & _ & Hbad).
       apply list_elem_of_fmap in Hin as (k & -> & _). vm_compute in Hbad. discriminate. }
  pose proof Hpp as Hsrc.
  apply process_loop_sources in Hsrc as (sources & recs & -> & Hsub & _ & _ & Hrec & _ & Hsp).
  assert (recs = []) as ->.
  { destruct Hrec as [|item r sources recs Hr _]; [done |].
    assert (item ∈ plain_post <$> seq 0 n) as Hin.
    { eapply sublist_subseteq; [exact Hsub | apply list_elem_of_here]. }
    apply list_elem_of_fmap in Hin as (k & -> & _).
    destruct Hr as (dt & _ & Hne & _). exfalso. apply Hne. reflexivity. }
  simpl in Hpp.
  assert (Hload : ∀ filename, load_seen_items filename st = (Ok ∅, st)).
  { intros filename. unfold load_seen_items. by rewrite Hfiles, lookup_empty. }
  rewrite (check_reddit_run ["hiring"] utc (crowded_net n) (λ _, true) st ∅ ∅
             [] pn sp [] 0%nat ∅ (Hload _) (Hload _)); [| | reflexivity].
  2: { rewrite crowded_posts. exact Hpp. }
  split; [done |]. split.
  { cbn [events]. rewrite !dispatches_app. simpl. by rewrite app_nil_r. }
  rewrite plain_post_ids in Hsp.
  assert (Hnd : NoDup (ident_of <$> seq 0 n)).
  { apply NoDup_fmap_2; [apply _ | apply NoDup_seq]. }
  destruct (pigeonhole (ident_of <$> seq 0 n) (seen_list sp) Hnd)
    as (x & Hx & Hnot).
  { rewrite seen_list_length, Hsp, (left_id_L ∅ (∪)), size_list_to_set by exact Hnd.
    rewrite length_fmap, length_seq. lia. }
  apply list_elem_of_fmap in Hx as (k & -> & Hk).
  exists (plain_post k), (seen_list sp). split_and!.
  - rewrite crowded_posts. apply list_elem_of_fmap. by exists k.
  - cbn [files]. rewrite lookup_insert_ne by (symmetry; apply seen_files_differ).
    apply lookup_insert_eq.
  - exact Hnot.
Qed.


(** * Further properties *)

(** ** More on [process_items] *)

Lemma append_assoc (s t u : string) : (s +:+ t) +:+ u = s +:+ t +:+ u.
Proof.
  induction s as [|c s IH]; [done |]. by rewrite !append_cons, IH.
Qed.

Lemma lower_app (s t : string) : lower (s +:+ t) = lower s +:+ lower t.
Proof.
  induction s as [|c s IH]; [done |].
  rewrite append_cons. simpl. by rewrite IH, append_cons.
Qed.

Lemma contains_app_l (n h t : string) :
  contains n h = true → contains n (h +:+ t) = true.
Proof.
  rewrite !contains_substring. intros (pre & post & ->).
  exists pre, (post +:+ t). by rewrite !append_assoc.
Qed.

Lemma contains_app_r (n h t : string) :
  contains n t = true → contains n (h +:+ t) = true.
Proof.
  rewrite !contains_substring. intros (pre & post & ->).
  exists (h +:+ pre), post. by rewrite !append_assoc.
Qed.

Lemma contains_empty (h : string) : contains "" h = true.
Proof. apply contains_substring. by exists "", h. Qed.

Section MoreMatcher.
Context {order : SetOrder}.
Variable KEYWORDS : list string.
Variable tz : Z → Z.

Lemma process_loop_all_seen item_type items matches n seen :
  Forall (λ item, d_id item ∈ seen) items →
  process_loop KEYWORDS tz item_type items (matches, n, seen) = Ok (matches, n, seen).
Proof.
  induction 1 as [|item items Hin _ IH]; [done |].
  by rewrite process_loop_cons, process_item_seen.
Qed.

(** The first occurrence of a new identifier with a timestamp that
    [fromtimestamp] rejects makes the loop raise, at that item or before. *)
Lemma process_loop_first_bad item_type pre item post matches n seen e :
  d_id item ∉ seen → d_id item ∉ (d_id <$> pre) →
  fromtimestamp tz (get (d_created_utc item) 0) = Raise e →
  ∃ e', process_loop KEYWORDS tz item_type (pre ++ item :: post) (matches, n, seen)
        = Raise e'.
Proof.
  intros Hseen Hpre Hbad. revert matches n seen Hseen.
  induction pre as [|item0 pre IH]; intros matches n seen Hseen.
  - simpl app. rewrite process_loop_cons, process_item_new, Hbad by done. by eexists.
  - rewrite fmap_cons, not_elem_of_cons in Hpre. destruct Hpre as [Hne Hpre].
    rewrite <- app_comm_cons, process_loop_cons.
    destruct (decide (d_id item0 ∈ seen)) as [Hin|Hin].
    + rewrite process_item_seen by done. simpl. by apply IH.
    + rewrite process_item_new by done.
      destruct (fromtimestamp tz (get (d_created_utc item0) 0)) as [dt|e'] eqn:Hdt;
        simpl.
      * apply IH; [done | set_solver].
      * by eexists.
Qed.

End MoreMatcher.

(** X1.  Items whose identifiers are all in the seen set are skipped before
    any of their fields is read: the call returns no record, counts no new
    item and leaves the seen set as it is, even when a timestamp among them
    is out of range. *)
Theorem process_items_all_seen {order : SetOrder} (KEYWORDS : list string)
    (tz : Z → Z) (items : list item_data) (seen : gset string) (item_type : string) :
  (∀ item, item ∈ items → d_id item ∈ seen) →
  process_items KEYWORDS tz items seen item_type = Ok ([], 0%nat, seen).
Proof.
  intros Hseen. apply process_loop_all_seen. by apply Forall_forall.
Qed.

Lemma process_items_all_seen_witness :
  @process_items trie_order ["hiring"] utc [post_A; post_year_10000]
    {["p1"; "p3"]} "post" = Ok ([], 0%nat, {["p1"; "p3"]}).
Proof.
  apply (@process_items_all_seen trie_order ["hiring"] utc [post_A; post_year_10000]).
  intros item Hin. repeat apply elem_of_cons in Hin as [->|Hin].
  - vm_compute. reflexivity.
  - vm_compute. reflexivity.
  - by apply elem_of_nil in Hin.
Defined.

(** X2.  With timestamps that are epoch seconds below 10^11 and an offset
    of local time of less than a day, [process_items] returns: it raises
    nothing, and the seen set it leaves is the one it was given with the
    identifiers of all the items. *)
Theorem process_items_returns {order : SetOrder} (KEYWORDS : list string)
    (tz : Z → Z) (items : list item_data) (seen : gset string) (item_type : string) :
  (∀ item, item ∈ items → 0 ≤ get (d_created_utc item) 0 < 100000000000) →
  (∀ t, -86400 < tz t < 86400) →
  ∃ matches n,
    process_items KEYWORDS tz items seen item_type
    = Ok (matches, n, seen ∪ list_to_set (d_id <$> items)).
Proof.
  intros Hts Htz.
  destruct (process_items KEYWORDS tz items seen item_type)
    as [[[matches n] seen']|e] eqn:Hrun.
  - exists matches, n.
    apply process_loop_sources in Hrun as (_ & _ & _ & _ & _ & _ & _ & _ & ->).
    done.
  - apply process_loop_raise in Hrun as (item & Hin & _ & Hbad).
    destruct (fromtimestamp_total tz (get (d_created_utc item) 0)) as [dt Hdt];
      [by apply Hts | apply Htz | congruence].
Qed.

Lemma process_items_returns_witness :
  ∃ matches n,
    @process_items trie_order ["hiring"] utc [post_A; comment_B] ∅ "post"
    = Ok (matches, n, ∅ ∪ list_to_set (d_id <$> [post_A; comment_B])).
Proof.
  apply (@process_items_returns trie_order ["hiring"] utc [post_A; comment_B] ∅ "post").
  - intros item Hin. repeat apply elem_of_cons in Hin as [->|Hin].
    + simpl. lia.
    + simpl. lia.
    + by apply elem_of_nil in Hin.
  - intros t. unfold utc. lia.
Defined.

(** X3.  One timestamp outside the years 1 to 9999 of local time, on the
    first occurrence of a new identifier, makes [process_items] raise,
    whatever the other items are and whether or not a keyword matches: the
    conversion comes before the matching and is in no [try] block, so the
    call returns no record at all, not even for the items before. *)
Theorem process_items_raises {order : SetOrder} (KEYWORDS : list string)
    (tz : Z → Z) (pre : list item_data) (item : item_data) (post : list item_data)
    (seen : gset string) (item_type : string) :
  d_id item ∉ seen → d_id item ∉ (d_id <$> pre) →
  (let local := get (d_created_utc item) 0 + tz (get (d_created_utc item) 0) in
   local < -62135596800 ∨ 253402300800 ≤ local) →
  ∃ e, process_items KEYWORDS tz (pre ++ item :: post) seen item_type = Raise e.
Proof.
  intros Hnew Hfirst Hout.
  destruct (fromtimestamp_out_of_range tz _ Hout) as [e Hbad].
  by eapply process_loop_first_bad.
Qed.

Lemma process_items_raises_witness :
  ∃ e, @process_items trie_order ["hiring"] utc ([post_A] ++ post_year_10000 :: [comment_B])
         ∅ "post" = Raise e.
Proof.
  apply (@process_items_raises trie_order ["hiring"] utc [post_A] post_year_10000
           [comment_B] ∅ "post").
  - apply not_elem_of_empty.
  - intros Hin. apply list_elem_of_singleton in Hin. discriminate Hin.
  - cbv zeta. right. apply Z.leb_le. reflexivity.
Defined.

Section KeywordEdges.
Context {order : SetOrder}.
Variable KEYWORDS : list string.
Variable tz : Z → Z.

Lemma empty_keyword_matches content :
  "" ∈ KEYWORDS → match_keywords KEYWORDS content ≠ ∅.
Proof.
  intros Hin Hempty.
  assert (H : "" ∈ match_keywords KEYWORDS content).
  { apply elem_of_match_keywords. split; [done | apply contains_empty]. }
  rewrite Hempty in H. by apply elem_of_empty in H.
Qed.

Lemma process_loop_empty_keyword item_type items matches0 n0 seen0 matches n seen :
  "" ∈ KEYWORDS →
  process_loop KEYWORDS tz item_type items (matches0, n0, seen0)
    = Ok (matches, n, seen) →
  (length matches + n0 = length matches0 + n)%nat.
Proof.
  intros Hin. revert matches0 n0 seen0.
  induction items as [|item items IH]; intros matches0 n0 seen0 Hrun.
  - simpl in Hrun. by simplify_eq.
  - rewrite process_loop_cons in Hrun.
    destruct (decide (d_id item ∈ seen0)) as [Hs|Hs].
    + rewrite process_item_seen in Hrun by done. by apply IH in Hrun.
    + rewrite process_item_new in Hrun by done.
      destruct (fromtimestamp tz (get (d_created_utc item) 0)) as [dt|] eqn:Hdt;
        simpl in Hrun; [| done].
      apply IH in Hrun. unfold new_matches in Hrun.
      rewrite decide_False in Hrun by by apply empty_keyword_matches.
      rewrite length_app in Hrun. simpl in Hrun. lia.
Qed.

End KeywordEdges.

(** X4.  A keyword list that holds the empty string reports every new
    item: the empty string is a substring of any text, so the number of
    records equals the number of new items checked. *)
Theorem empty_keyword_reports_every_new_item {order : SetOrder}
    (KEYWORDS : list string) (tz : Z → Z) (items : list item_data)
    (seen : gset string) (item_type : string) matches n seen' :
  "" ∈ KEYWORDS →
  process_items KEYWORDS tz items seen item_type = Ok (matches, n, seen') →
  length matches = n ∧ n = size (list_to_set (d_id <$> items) ∖ seen).
Proof.
  intros Hin Hrun. split.
  - apply (process_loop_empty_keyword _ _ _ _ _ _ _ _ _ _ Hin) in Hrun.
    simpl in Hrun. lia.
  - by apply process_loop_sources in Hrun as (_ & _ & _ & _ & _ & _ & _ & -> & _).
Qed.

Lemma empty_keyword_reports_every_new_item_witness :
  length [@build_record trie_order "comment" comment_B "2023-11-14 22:14:20" {[""]}]
    = 1%nat ∧
  1%nat = size (list_to_set (d_id <$> [comment_B; comment_B]) ∖ (∅ : gset string)).
Proof.
  apply (@empty_keyword_reports_every_new_item trie_order [""] utc
           [comment_B; comment_B] ∅ "comment" _ 1%nat {["c1"]}).
  - apply list_elem_of_here.
  - vm_compute. reflexivity.
Defined.

(** X5.  A keyword of the list that occurs, letter case apart, in the
    title or in the body of an item is among the keywords matched for that
    item.  The title is the one reported: for a comment it is the title of
    the post it answers. *)
Theorem keyword_in_title_or_body_matches (KEYWORDS : list string)
    (item_type : string) (item : item_data) (k : string) :
  k ∈ KEYWORDS →
  contains (lower k) (lower (item_title item_type item)) = true ∨
  contains (lower k) (lower (item_body item_type item)) = true →
  k ∈ match_keywords KEYWORDS (item_content item_type item).
Proof.
  intros Hk Hocc. apply elem_of_match_keywords. split; [done |].
  unfold item_content. rewrite !lower_app.
  destruct Hocc as [Ht|Hb].
  - by apply contains_app_l.
  - by apply contains_app_r, contains_app_r.
Qed.

Lemma keyword_in_title_or_body_matches_witness :
  "hiring" ∈ match_keywords ["hiring"] (item_content "comment" comment_on_hiring_post).
Proof.
  apply (keyword_in_title_or_body_matches ["hiring"] "comment" comment_on_hiring_post).
  - apply list_elem_of_here.
  - left. reflexivity.
Defined.

(** X6.  A comment without [link_title] is given a title that starts with
    [Comment: ], and that title is part of the text searched: a keyword
    that reads [comment] in any letter case matches every such comment,
    whatever the comment says. *)
Theorem keyword_comment_matches_untitled_comments (KEYWORDS : list string)
    (item : item_data) (k : string) :
  k ∈ KEYWORDS → lower k = "comment" → d_link_title item = None →
  k ∈ match_keywords KEYWORDS (item_content "comment" item).
Proof.
  intros Hk Hlow Hlink. apply elem_of_match_keywords. split; [done |].
  rewrite Hlow. unfold item_content, item_title.
  change (String.eqb "comment" "comment") with true. cbv iota. rewrite Hlink.
  change (get None ?d) with d.
  rewrite lower_app. apply contains_app_l.
  rewrite lower_app. apply contains_app_l. reflexivity.
Qed.

Lemma keyword_comment_matches_untitled_comments_witness :
  "Comment" ∈ match_keywords ["Comment"] (item_content "comment" comment_B).
Proof.
  apply (keyword_comment_matches_untitled_comments ["Comment"] comment_B);
    [apply list_elem_of_here | reflexivity | reflexivity].
Defined.

(** X7.  Matching does not see letter case: two items whose titles and
    bodies agree once lower-cased match the same keywords. *)
Theorem match_keywords_ignores_item_case (KEYWORDS : list string)
    (item_type : string) (item1 item2 : item_data) :
  lower (item_title item_type item1) = lower (item_title item_type item2) →
  lower (item_body item_type item1) = lower (item_body item_type item2) →
  match_keywords KEYWORDS (item_content item_type item1)
  = match_keywords KEYWORDS (item_content item_type item2).
Proof.
  intros Ht Hb. unfold item_content. by rewrite !lower_app, Ht, Hb.
Qed.

Lemma match_keywords_ignores_item_case_witness :
  match_keywords ["hiring"] (item_content "post" post_A)
  = match_keywords ["hiring"] (item_content "post" post_A_shouting).
Proof.
  apply (match_keywords_ignores_item_case ["hiring"] "post" post_A post_A_shouting);
    reflexivity.
Defined.

(** ** More on the collector *)

Lemma page_items_length_bound (trace : list (string * page_result)) (p : nat) :
  Forall (λ call, (length (children_of call.2) ≤ p)%nat) trace →
  (length (page_items trace) ≤ length trace * p)%nat.
Proof.
  unfold page_items. induction 1 as [|call trace Hcall _ IH]; [simpl; lia |].
  rewrite fmap_cons. change (concat (?x :: ?l)) with (x ++ concat l).
  rewrite length_app, length_cons. simpl in Hcall. nia.
Qed.

(** X8.  What the collector returns is the items of every page it
    requested, page after page in the order of the requests, the items of
    the last page included: nothing is dropped, repeated or reordered. *)
Theorem fetch_multiple_batches_items (net : nat → string → page_result)
    (url : string) (num_batches : nat) :
  let (all_items, trace) := fetch_multiple_batches net url num_batches in
  all_items = page_items trace ∧
  ∀ i u r, trace !! i = Some (u, r) → r = net i u.
Proof.
  unfold fetch_multiple_batches.
  destruct (fetch_loop_spec net url num_batches 0 None [] [])
    as (new & -> & Hchain & _ & _).
  split; [done |]. simpl. intros i u r Hi.
  by apply (chain_answers _ _ _ _ _ Hchain) in Hi.
Qed.

(** X9.  When no page of the feed holds more than [p] items, the collector
    returns at most [num_batches * p] items: at most 1000 for the 10 batches
    of at most 100 that [check_reddit] asks for. *)
Theorem fetch_multiple_batches_bound (net : nat → string → page_result)
    (url : string) (num_batches p : nat) :
  (∀ i u, (length (children_of (net i u)) ≤ p)%nat) →
  (length (fetch_multiple_batches net url num_batches).1 ≤ num_batches * p)%nat.
Proof.
  intros Hp. unfold fetch_multiple_batches.
  destruct (fetch_loop_spec net url num_batches 0 None [] [])
    as (new & -> & Hchain & Hlen & _).
  simpl. etrans; [apply page_items_length_bound |].
  - apply Forall_lookup_2. intros i [u r] Hi.
    apply (chain_answers _ _ _ _ _ Hchain) in Hi. simpl in *. subst r. apply Hp.
  - by apply Nat.mul_le_mono_r.
Qed.

Lemma fetch_multiple_batches_bound_witness :
  (length (fetch_multiple_batches stub_empty_from_page_3 REDDIT_POSTS_URL 10).1
     ≤ 10 * 1)%nat.
Proof.
  apply (fetch_multiple_batches_bound stub_empty_from_page_3 REDDIT_POSTS_URL 10 1).
  intros [|[|i]] u; simpl; lia.
Defined.

(** X10.  When the first request fails, or its page is empty or names no
    cursor ([None] or the empty string), the collector makes that one
    request, to the feed URL without [&after=], and returns the items of
    that page. *)
Theorem fetch_multiple_batches_first_page_stops (net : nat → string → page_result)
    (url : string) (num_batches : nat) :
  (1 ≤ num_batches)%nat →
  continues (net 0%nat url) = false →
  fetch_multiple_batches net url num_batches
  = (children_of (net 0%nat url), [(url, net 0%nat url)]).
Proof.
  intros Hn Hstop. destruct num_batches as [|n]; [lia |].
  unfold fetch_multiple_batches. simpl.
  change (batch_url_of url None) with url.
  destruct (net 0%nat url) as [|items after]; [done |].
  by rewrite loop_test_continues, Hstop.
Qed.

Lemma fetch_multiple_batches_first_page_stops_witness :
  fetch_multiple_batches sample_net REDDIT_COMMENTS_URL 10
  = (children_of (sample_net 0%nat REDDIT_COMMENTS_URL),
     [(REDDIT_COMMENTS_URL, sample_net 0%nat REDDIT_COMMENTS_URL)]).
Proof.
  apply (fetch_multiple_batches_first_page_stops sample_net REDDIT_COMMENTS_URL 10).
  - lia.
  - reflexivity.
Defined.

(** ** More on the cycle *)

Section MoreCycle.
Context {order : SetOrder}.
Variable KEYWORDS : list string.
Variable tz : Z → Z.
Variable net : nat → string → page_result.

Lemma load_seen_items_ok filename st ids :
  files st !! filename = Some (IdArray ids) →
  load_seen_items filename st = (Ok (list_to_set ids), st).
Proof. intros Hf. unfold load_seen_items. by rewrite Hf. Qed.

End MoreCycle.

(** A cycle that starts where a completed cycle ended, with seen sets
    below the cap and the same feed, finds nothing new; the two cycles may
    iterate their sets in different orders. *)
Lemma check_reddit_again (order order' : SetOrder) (KEYWORDS : list string)
    (tz : Z → Z) (net : nat → string → page_result)
    mail_ok mail_ok' st all_matches seen_posts seen_comments sp sc :
  sp = seen_posts ∪ list_to_set (d_id <$> (fetch_multiple_batches net REDDIT_POSTS_URL 10).1) →
  sc = seen_comments
       ∪ list_to_set (d_id <$> (fetch_multiple_batches net REDDIT_COMMENTS_URL 10).1) →
  (size sp ≤ 5000)%nat → (size sc ≤ 5000)%nat →
  @check_reddit order' KEYWORDS tz net mail_ok'
    (@after_cycle order mail_ok st all_matches sp sc)
  = (Ok tt, @after_cycle order' mail_ok'
              (@after_cycle order mail_ok st all_matches sp sc) [] sp sc).
Proof.
  intros Hsp Hsc Hp Hc.
  set (st1 := @after_cycle order mail_ok st all_matches sp sc).
  assert (Hfp : files st1 !! SEEN_POSTS_FILE = Some (IdArray (@seen_list order sp))).
  { simpl. rewrite lookup_insert_ne by (symmetry; apply seen_files_differ).
    apply lookup_insert_eq. }
  assert (Hfc : files st1 !! SEEN_COMMENTS_FILE = Some (IdArray (@seen_list order sc))).
  { simpl. apply lookup_insert_eq. }
  apply (@check_reddit_run order' KEYWORDS tz net mail_ok' st1 sp sc [] 0%nat sp [] 0%nat sc).
  - rewrite (load_seen_items_ok _ _ _ Hfp).
    by rewrite seen_list_below_cap, list_to_set_set_iter.
  - rewrite (load_seen_items_ok _ _ _ Hfc).
    by rewrite seen_list_below_cap, list_to_set_set_iter.
  - apply process_loop_all_seen, Forall_forall. intros item Hin.
    rewrite Hsp. apply elem_of_union_r, elem_of_list_to_set, list_elem_of_fmap.
    by exists item.
  - apply process_loop_all_seen, Forall_forall. intros item Hin.
    rewrite Hsc. apply elem_of_union_r, elem_of_list_to_set, list_elem_of_fmap.
    by exists item.
Qed.

(** A cycle without matches sends no mail. *)
Lemma dispatches_after_quiet_cycle {order : SetOrder} mail_ok st sp sc :
  dispatches (events (after_cycle mail_ok st [] sp sc)) = dispatches (events st).
Proof.
  unfold after_cycle. cbn [events]. rewrite !dispatches_app.
  change (dispatches (notification mail_ok [])) with (@nil (list match_record)).
  change (dispatches [Dump SEEN_POSTS_FILE (seen_list sp);
                      Dump SEEN_COMMENTS_FILE (seen_list sc)])
    with (@nil (list match_record)).
  by rewrite !app_nil_r.
Qed.

(** Two completed cycles that saved the same seen sets, below the cap,
    left the same identifiers in the seen files. *)
Lemma after_cycle_same_identifiers (order order' : SetOrder) mail_ok mail_ok' st st'
    all_matches all_matches' sp sc :
  (size sp ≤ 5000)%nat → (size sc ≤ 5000)%nat →
  same_identifiers (files (@after_cycle order mail_ok st all_matches sp sc))
    (files (@after_cycle order' mail_ok' st' all_matches' sp sc)) SEEN_POSTS_FILE ∧
  same_identifiers (files (@after_cycle order mail_ok st all_matches sp sc))
    (files (@after_cycle order' mail_ok' st' all_matches' sp sc)) SEEN_COMMENTS_FILE.
Proof.
  intros Hp Hc. split.
  - exists (@seen_list order sp), (@seen_list order' sp). simpl.
    rewrite !(lookup_insert_ne _ SEEN_COMMENTS_FILE SEEN_POSTS_FILE)
      by (symmetry; apply seen_files_differ).
    rewrite !lookup_insert_eq. split_and!; [done | done | by apply seen_list_orders].
  - exists (@seen_list order sc), (@seen_list order' sc). simpl.
    rewrite !lookup_insert_eq. split_and!; [done | done | by apply seen_list_orders].
Qed.

(** X11.  A cycle writes to the two seen files and to nothing else: every
    other file is after the cycle what it was before, whether the cycle
    runs to its end or raises. *)
Theorem check_reddit_other_files {order : SetOrder} (KEYWORDS : list string)
    (tz : Z → Z) (net : nat → string → page_result)
    (mail_ok : list match_record → bool) (st : state) (filename : string) :
  filename ≠ SEEN_POSTS_FILE → filename ≠ SEEN_COMMENTS_FILE →
  files (check_reddit KEYWORDS tz net mail_ok st).2 !! filename
  = files st !! filename.
Proof.
  intros Hp Hc.
  destruct (check_reddit_cases KEYWORDS tz net mail_ok st)
    as [(sp0 & sc0 & pm & pn & sp & cm & cn & sc & Hlp & Hlc & Hpp & Hpc)
       |[[e Hraise] _]].
  - rewrite (check_reddit_run _ _ _ _ _ _ _ _ _ _ _ _ _ Hlp Hlc Hpp Hpc). simpl.
    by rewrite !lookup_insert_ne.
  - by rewrite Hraise.
Qed.

Lemma check_reddit_other_files_witness :
  files (@check_reddit trie_order ["hiring"] utc sample_net (λ _, true)
           {| files := {["keywords.json" := Undecodable]}; events := [] |}).2
    !! "keywords.json"
  = Some Undecodable.
Proof.
  rewrite (@check_reddit_other_files trie_order ["hiring"] utc sample_net (λ _, true)
             {| files := {["keywords.json" := Undecodable]}; events := [] |}
             "keywords.json") by discriminate.
  reflexivity.
Defined.

(** X12.  A seen file that exists and does not decode stops the cycle at
    the load: the cycle raises [JSONDecodeError], sends no mail and writes
    no file, so the file is still there, undecodable, for the next
    cycle. *)
Theorem check_reddit_corrupt_store {order : SetOrder} (KEYWORDS : list string)
    (tz : Z → Z) (net : nat → string → page_result)
    (mail_ok : list match_record → bool) (st : state) :
  files st !! SEEN_POSTS_FILE = Some Undecodable ∨
  files st !! SEEN_COMMENTS_FILE = Some Undecodable →
  check_reddit KEYWORDS tz net mail_ok st = (Raise JSONDecodeError, st).
Proof.
  intros Hbad. unfold check_reddit, mbind, M_bind, load_seen_items.
  destruct (files st !! SEEN_POSTS_FILE) as [[|ids]|] eqn:Hp; [done | |];
    (destruct Hbad as [Hbad|Hbad]; [done |]); by rewrite Hbad.
Qed.

Lemma check_reddit_corrupt_store_witness :
  let st := {| files := {[SEEN_COMMENTS_FILE := Undecodable]}; events := [] |} in
  @check_reddit trie_order ["hiring"] utc sample_net (λ _, true) st
  = (Raise JSONDecodeError, st).
Proof.
  apply (@check_reddit_corrupt_store trie_order ["hiring"] utc sample_net (λ _, true)).
  right. reflexivity.
Defined.

(** X13.  A post that is new and whose timestamp lies outside the years 1
    to 9999 of local time stops the cycle: the cycle raises before the
    notification step, so no mail is sent, even for other posts that
    matched, and no seen file is written. *)
Theorem check_reddit_bad_timestamp {order : SetOrder} (KEYWORDS : list string)
    (tz : Z → Z) (net : nat → string → page_result)
    (mail_ok : list match_record → bool) (st : state)
    seen_posts seen_comments pre item post :
  load_seen_items SEEN_POSTS_FILE st = (Ok seen_posts, st) →
  load_seen_items SEEN_COMMENTS_FILE st = (Ok seen_comments, st) →
  (fetch_multiple_batches net REDDIT_POSTS_URL 10).1 = pre ++ item :: post →
  d_id item ∉ seen_posts → d_id item ∉ (d_id <$> pre) →
  (let local := get (d_created_utc item) 0 + tz (get (d_created_utc item) 0) in
   local < -62135596800 ∨ 253402300800 ≤ local) →
  ∃ e, check_reddit KEYWORDS tz net mail_ok st = (Raise e, st).
Proof.
  intros Hlp Hlc Hposts Hnew Hfirst Hout.
  destruct (fromtimestamp_out_of_range tz _ Hout) as [e Hbad].
  destruct (process_loop_first_bad KEYWORDS tz "post" pre item post [] 0%nat
              seen_posts e Hnew Hfirst Hbad) as [e' Hrun].
  exists e'. unfold check_reddit, mbind, M_bind. rewrite Hlp, Hlc. unfold lift.
  unfold process_items. by rewrite Hposts, Hrun.
Qed.

Lemma check_reddit_bad_timestamp_witness :
  let st := {| files := ∅; events := [] |} in
  ∃ e, @check_reddit trie_order ["hiring"] utc net_with_bad_post (λ _, true) st
       = (Raise e, st).
Proof.
  apply (@check_reddit_bad_timestamp trie_order ["hiring"] utc net_with_bad_post
           (λ _, true) _ ∅ ∅ [post_A] post_year_10000 []).
  - reflexivity.
  - reflexivity.
  - reflexivity.
  - apply not_elem_of_empty.
  - intros Hin. apply list_elem_of_singleton in Hin. discriminate Hin.
  - cbv zeta. right. apply Z.leb_le. reflexivity.
Defined.

(** X14.  Two cycles in a row over the same feed, each with the iteration
    order of its own sets: when the first runs to its end and leaves seen
    sets of at most 5000 identifiers, the second loads those sets back,
    finds every item already seen, sends no mail and leaves in each seen
    file the identifiers that were there, in some order. *)
Theorem check_reddit_twice (order order' : SetOrder) (KEYWORDS : list string)
    (tz : Z → Z) (net : nat → string → page_result)
    (mail_ok mail_ok' : list match_record → bool) (st : state)
    seen_posts seen_comments pm pn sp cm cn sc :
  load_seen_items SEEN_POSTS_FILE st = (Ok seen_posts, st) →
  load_seen_items SEEN_COMMENTS_FILE st = (Ok seen_comments, st) →
  @process_items order KEYWORDS tz (fetch_multiple_batches net REDDIT_POSTS_URL 10).1
    seen_posts "post" = Ok (pm, pn, sp) →
  @process_items order KEYWORDS tz (fetch_multiple_batches net REDDIT_COMMENTS_URL 10).1
    seen_comments "comment" = Ok (cm, cn, sc) →
  (size sp ≤ 5000)%nat → (size sc ≤ 5000)%nat →
  ∃ st1 st2,
    @check_reddit order KEYWORDS tz net mail_ok st = (Ok tt, st1) ∧
    @check_reddit order' KEYWORDS tz net mail_ok' st1 = (Ok tt, st2) ∧
    dispatches (events st2) = dispatches (events st1) ∧
    same_identifiers (files st1) (files st2) SEEN_POSTS_FILE ∧
    same_identifiers (files st1) (files st2) SEEN_COMMENTS_FILE.
Proof.
  intros Hlp Hlc Hpp Hpc Hp Hc.
  exists (@after_cycle order mail_ok st (pm ++ cm) sp sc),
         (@after_cycle order' mail_ok'
            (@after_cycle order mail_ok st (pm ++ cm) sp sc) [] sp sc).
  split; [exact (check_reddit_run _ _ _ _ _ _ _ _ _ _ _ _ _ Hlp Hlc Hpp Hpc) |].
  pose proof Hpp as Hsp. pose proof Hpc as Hsc.
  apply process_loop_sources in Hsp as (_ & _ & _ & _ & _ & _ & _ & _ & Hsp).
  apply process_loop_sources in Hsc as (_ & _ & _ & _ & _ & _ & _ & _ & Hsc).
  split; [by eapply check_reddit_again |].
  split; [apply dispatches_after_quiet_cycle |].
  by apply after_cycle_same_identifiers.
Qed.

Lemma check_reddit_twice_witness :
  ∃ st1 st2,
    @check_reddit trie_order ["hiring"] utc sample_net (λ _, true)
      {| files := ∅; events := [] |} = (Ok tt, st1) ∧
    @check_reddit reversed_order ["hiring"] utc sample_net (λ _, true) st1 = (Ok tt, st2) ∧
    dispatches (events st2) = dispatches (events st1) ∧
    same_identifiers (files st1) (files st2) SEEN_POSTS_FILE ∧
    same_identifiers (files st1) (files st2) SEEN_COMMENTS_FILE.
Proof.
  apply (check_reddit_twice trie_order reversed_order ["hiring"] utc sample_net
           (λ _, true) (λ _, true) {| files := ∅; events := [] |} ∅ ∅
           [@build_record trie_order "post" post_A "2023-11-14 22:13:20" {["hiring"]}]
           1%nat {["p1"]} [] 1%nat {["c1"]}).
  - reflexivity.
  - reflexivity.
  - vm_compute. reflexivity.
  - vm_compute. reflexivity.
  - apply Nat.leb_le. vm_compute. reflexivity.
  - apply Nat.leb_le. vm_compute. reflexivity.
Defined.

(** ** The driver, [main.py] *)

Section Main.
Context {order : SetOrder}.
Variable KEYWORDS : list string.
Variable tz : Z → Z.

Lemma run_pending_loop_cons w jobs st :
  run_pending_loop KEYWORDS tz (w :: jobs) st
  = match check_reddit KEYWORDS tz w.1 w.2 st with
    | (Ok _, st') => run_pending_loop KEYWORDS tz jobs st'
    | (Raise e, st') => (Raise e, st')
    end.
Proof. reflexivity. Qed.

(** The events of one cycle, whatever its outcome. *)
Lemma check_reddit_events net mail_ok st :
  ∃ new,
    events (check_reddit KEYWORDS tz net mail_ok st).2 = events st ++ new ∧
    (length (dispatches new) ≤ 1)%nat ∧
    Forall (λ all_matches, all_matches ≠ []) (dispatches new).
Proof.
  destruct (check_reddit_cases KEYWORDS tz net mail_ok st)
    as [(sp0 & sc0 & pm & pn & sp & cm & cn & sc & Hlp & Hlc & Hpp & Hpc)
       |[[e Hraise] _]].
  - rewrite (check_reddit_run _ _ _ _ _ _ _ _ _ _ _ _ _ Hlp Hlc Hpp Hpc).
    eexists. split; [reflexivity |].
    rewrite dispatches_app, dispatches_notification. simpl. rewrite app_nil_r.
    case_decide; simpl; split; try lia; by repeat constructor.
  - rewrite Hraise. exists []. rewrite app_nil_r. simpl.
    split_and!; [done | lia | constructor].
Qed.

Lemma run_pending_loop_events jobs st :
  ∃ new,
    events (run_pending_loop KEYWORDS tz jobs st).2 = events st ++ new ∧
    (length (dispatches new) ≤ length jobs)%nat ∧
    Forall (λ all_matches, all_matches ≠ []) (dispatches new).
Proof.
  revert st. induction jobs as [|w jobs IH]; intros st.
  - exists []. rewrite app_nil_r. simpl. split_and!; [done | lia | constructor].
  - rewrite run_pending_loop_cons.
    destruct (check_reddit_events w.1 w.2 st) as (new1 & Hev1 & Hlen1 & Hne1).
    destruct (check_reddit KEYWORDS tz w.1 w.2 st) as [[[]|e] st1]; simpl in Hev1.
    + destruct (IH st1) as (new2 & Hev2 & Hlen2 & Hne2).
      exists (new1 ++ new2). rewrite Hev2, Hev1, (assoc_L (++)), dispatches_app.
      rewrite length_app, Forall_app. simpl. split_and!; [done | lia | done | done].
    + exists new1. simpl. split_and!; [done | lia | done].
Qed.

Lemma check_reddit_raise_state net mail_ok st e st' :
  check_reddit KEYWORDS tz net mail_ok st = (Raise e, st') → st' = st.
Proof.
  intros Hrun.
  destruct (check_reddit_cases KEYWORDS tz net mail_ok st)
    as [(sp0 & sc0 & pm & pn & sp & cm & cn & sc & Hlp & Hlc & Hpp & Hpc)
       |[[e' Hraise] _]].
  - rewrite (check_reddit_run _ _ _ _ _ _ _ _ _ _ _ _ _ Hlp Hlc Hpp Hpc) in Hrun.
    discriminate.
  - congruence.
Qed.

End Main.

(** X15.  However many jobs come due, [main.py] sends at most one mail for
    the check at start-up and one for each job, and never a mail without
    matches. *)
Theorem main_dispatches {order : SetOrder} (KEYWORDS : list string) (tz : Z → Z)
    (startup : world) (jobs : list world) (st : state) :
  ∃ new,
    events (main KEYWORDS tz startup jobs st).2 = events st ++ new ∧
    (length (dispatches new) ≤ S (length jobs))%nat ∧
    Forall (λ all_matches, all_matches ≠ []) (dispatches new).
Proof.
  exact (run_pending_loop_events KEYWORDS tz (startup :: jobs) st).
Qed.

(** X16.  The first cycle that raises ends [main.py]: the jobs before it
    ran to their ends, the exception is the one of that cycle, the jobs
    after it do not run, and the failing cycle itself has written no file
    and sent no mail. *)
Theorem main_stops_at_first_exception {order : SetOrder} (KEYWORDS : list string)
    (tz : Z → Z) (startup : world) (jobs : list world) (st st' : state) (e : exn) :
  main KEYWORDS tz startup jobs st = (Raise e, st') →
  ∃ completed w rest,
    startup :: jobs = completed ++ w :: rest ∧
    run_pending_loop KEYWORDS tz completed st = (Ok tt, st') ∧
    check_reddit KEYWORDS tz w.1 w.2 st' = (Raise e, st').
Proof.
  change (main KEYWORDS tz startup jobs st)
    with (run_pending_loop KEYWORDS tz (startup :: jobs) st).
  generalize (startup :: jobs). clear startup jobs. intros jobs. revert st.
  induction jobs as [|w jobs IH]; intros st Hrun; [done |].
  rewrite run_pending_loop_cons in Hrun.
  destruct (check_reddit KEYWORDS tz w.1 w.2 st) as [[[]|e1] st1] eqn:Hw.
  - destruct (IH _ Hrun) as (completed & w' & rest & -> & Hdone & Hfail).
    exists (w :: completed), w', rest. split_and!; [done | | done].
    by rewrite run_pending_loop_cons, Hw.
  - simplify_eq. pose proof (check_reddit_raise_state _ _ _ _ _ _ _ Hw) as ->.
    by exists [], w, jobs.
Qed.

Lemma main_stops_at_first_exception_witness :
  ∃ completed w rest,
    sample_world :: [bad_world; sample_world] = completed ++ w :: rest ∧
    @run_pending_loop trie_order ["hiring"] utc completed {| files := ∅; events := [] |}
    = (Ok tt, (@main trie_order ["hiring"] utc sample_world [bad_world; sample_world]
                 {| files := ∅; events := [] |}).2) ∧
    @check_reddit trie_order ["hiring"] utc w.1 w.2
      (@main trie_order ["hiring"] utc sample_world [bad_world; sample_world]
         {| files := ∅; events := [] |}).2
    = (Raise ValueError,
       (@main trie_order ["hiring"] utc sample_world [bad_world; sample_world]
          {| files := ∅; events := [] |}).2).
Proof.
  apply (@main_stops_at_first_exception trie_order ["hiring"] utc sample_world
           [bad_world; sample_world] {| files := ∅; events := [] |}).
  vm_compute. reflexivity.
Defined.

(** X17.  A feed that does not change is reported once: when the check at
    start-up runs to its end and leaves seen sets of at most 5000
    identifiers, every later job over the same feed runs to its end and
    sends no mail, and each seen file holds at the end the identifiers that
    the first cycle wrote, in some order. *)
Theorem main_unchanged_feed {order : SetOrder} (KEYWORDS : list string) (tz : Z → Z)
    (net : nat → string → page_result) (mail_ok : list match_record → bool)
    (mails : list (list match_record → bool)) (st : state)
    seen_posts seen_comments pm pn sp cm cn sc :
  load_seen_items SEEN_POSTS_FILE st = (Ok seen_posts, st) →
  load_seen_items SEEN_COMMENTS_FILE st = (Ok seen_comments, st) →
  process_items KEYWORDS tz (fetch_multiple_batches net REDDIT_POSTS_URL 10).1
    seen_posts "post" = Ok (pm, pn, sp) →
  process_items KEYWORDS tz (fetch_multiple_batches net REDDIT_COMMENTS_URL 10).1
    seen_comments "comment" = Ok (cm, cn, sc) →
  (size sp ≤ 5000)%nat → (size sc ≤ 5000)%nat →
  ∃ st1 st',
    check_reddit KEYWORDS tz net mail_ok st = (Ok tt, st1) ∧
    main KEYWORDS tz (net, mail_ok) ((λ m, (net, m)) <$> mails) st = (Ok tt, st') ∧
    dispatches (events st') = dispatches (events st1) ∧
    same_identifiers (files st1) (files st') SEEN_POSTS_FILE ∧
    same_identifiers (files st1) (files st') SEEN_COMMENTS_FILE.
Proof.
  intros Hlp Hlc Hpp Hpc Hp Hc.
  pose proof (check_reddit_run _ _ _ mail_ok _ _ _ _ _ _ _ _ _ Hlp Hlc Hpp Hpc) as Hfirst.
  pose proof Hpp as Hsp. pose proof Hpc as Hsc.
  apply process_loop_sources in Hsp as (_ & _ & _ & _ & _ & _ & _ & _ & Hsp).
  apply process_loop_sources in Hsc as (_ & _ & _ & _ & _ & _ & _ & _ & Hsc).
  assert (Hloop : ∀ mails m0 st0 ms,
            ∃ m1 st1 ms1,
              run_pending_loop KEYWORDS tz ((λ m, (net, m)) <$> mails)
                (after_cycle m0 st0 ms sp sc)
              = (Ok tt, after_cycle m1 st1 ms1 sp sc) ∧
              dispatches (events (after_cycle m1 st1 ms1 sp sc))
              = dispatches (events (after_cycle m0 st0 ms sp sc))).
  { clear mails. intros mails. induction mails as [|m mails IH]; intros m0 st0 ms.
    - by exists m0, st0, ms.
    - pose proof (check_reddit_again order order KEYWORDS tz net m0 m st0 ms
                    seen_posts seen_comments sp sc Hsp Hsc Hp Hc) as Hrun.
      destruct (IH m (after_cycle m0 st0 ms sp sc) []) as (m1 & st1 & ms1 & Hrest & Hd).
      exists m1, st1, ms1. split.
      + rewrite fmap_cons, run_pending_loop_cons. simpl. by rewrite Hrun.
      + rewrite Hd. apply dispatches_after_quiet_cycle. }
  destruct (Hloop mails mail_ok st (pm ++ cm)) as (m1 & st1 & ms1 & Hrest & Hd).
  exists (after_cycle mail_ok st (pm ++ cm) sp sc), (after_cycle m1 st1 ms1 sp sc).
  split; [done |]. split.
  { unfold main, mbind, M_bind. simpl. by rewrite Hfirst. }
  split; [done |]. by apply after_cycle_same_identifiers.
Qed.

Lemma main_unchanged_feed_witness :
  ∃ st1 st',
    @check_reddit trie_order ["hiring"] utc sample_net (λ _, true)
      {| files := ∅; events := [] |} = (Ok tt, st1) ∧
    @main trie_order ["hiring"] utc (sample_net, λ _, true)
      ((λ m, (sample_net, m)) <$> [λ _, true; λ _, false])
      {| files := ∅; events := [] |} = (Ok tt, st') ∧
    dispatches (events st') = dispatches (events st1) ∧
    same_identifiers (files st1) (files st') SEEN_POSTS_FILE ∧
    same_identifiers (files st1) (files st') SEEN_COMMENTS_FILE.
Proof.
  apply (@main_unchanged_feed trie_order ["hiring"] utc sample_net (λ _, true)
           [λ _, true; λ _, false] {| files := ∅; events := [] |} ∅ ∅
           [@build_record trie_order "post" post_A "2023-11-14 22:13:20" {["hiring"]}]
           1%nat {["p1"]} [] 1%nat {["c1"]}).
  - reflexivity.
  - reflexivity.
  - vm_compute. reflexivity.
  - vm_compute. reflexivity.
  - apply Nat.leb_le. vm_compute. reflexivity.
  - apply Nat.leb_le. vm_compute. reflexivity.
Defined.

(** ** The message of [send_email] *)

Lemma append_nil_r (s : string) : s +:+ "" = s.
Proof. induction s as [|c s IH]; [done |]. by rewrite append_cons, IH. Qed.

Lemma starts_refl (n : string) : starts n n.
Proof. exists "". by rewrite append_nil_r. Qed.

Lemma starts_here (n t : string) : starts n (n +:+ t).
Proof. by exists t. Qed.

Lemma starts_atom (a n h : string) : starts n h → starts (a +:+ n) (a +:+ h).
Proof. intros [post ->]. exists post. by rewrite append_assoc. Qed.

Lemma contains_starts (n h : string) : starts n h → contains n h = true.
Proof. intros [post ->]. apply contains_substring. by exists "", post. Qed.

(** Looks for the needle, atom by atom, along a chain of appends. *)
Ltac find_substring :=
  first
    [ apply contains_starts;
      solve [repeat first [apply starts_refl | apply starts_here | apply starts_atom]]
    | apply contains_app_r; find_substring ].

Lemma foldl_append (html : string) (f : match_record → string) (matches : list match_record) :
  foldl (λ html m, html +:+ f m) html matches
  = html +:+ foldr (λ m rest, f m +:+ rest) "" matches.
Proof.
  revert html. induction matches as [|m matches IH]; intros html; simpl.
  - by rewrite append_nil_r.
  - by rewrite IH, append_assoc.
Qed.

Lemma foldr_append_app (f : match_record → string) (l1 l2 : list match_record) :
  foldr (λ m rest, f m +:+ rest) "" (l1 ++ l2)
  = foldr (λ m rest, f m +:+ rest) "" l1 +:+ foldr (λ m rest, f m +:+ rest) "" l2.
Proof.
  induction l1 as [|m l1 IH]; simpl; [done |]. by rewrite IH, append_assoc.
Qed.

(** The body is the heading with the number of matches, the blocks of the
    matches in the order of the list, and the footer. *)
Lemma email_html_blocks (matches : list match_record) :
  email_html matches
  = "<h2>🚨 Reddit Keyword Matches Found!</h2>" +:+ "<p>Found <strong>" +:+
    pretty (length matches) +:+ "</strong> new item(s) matching your keywords:</p>" +:+
    "<hr>" +:+ foldr (λ m rest, match_html m +:+ rest) "" matches +:+ "<hr>" +:+
    "<p style='color: #666; font-size: 0.85em; margin-top: 20px;'>This is an automated alert from your Reddit Keyword Monitor.</p>".
Proof.
  unfold email_html. cbv zeta. rewrite foldl_append. by rewrite !append_assoc.
Qed.

(** X18.  The body of the mail shows every match: its keywords, its title
    as the text of a link to its URL, and its subreddit and creation time.
    Each field is copied as it is, without any escaping of HTML. *)
Theorem email_html_shows_every_match (matches : list match_record) (m : match_record) :
  m ∈ matches →
  contains (html_keywords m) (email_html matches) = true ∧
  contains (html_title_link m) (email_html matches) = true ∧
  contains (html_origin m) (email_html matches) = true.
Proof.
  intros (l1 & l2 & ->)%list_elem_of_split.
  rewrite email_html_blocks, foldr_append_app. simpl foldr.
  generalize (foldr (λ m rest, match_html m +:+ rest) "" l1).
  generalize (foldr (λ m rest, match_html m +:+ rest) "" l2).
  generalize (pretty (length (l1 ++ m :: l2))).
  intros count after before.
  unfold match_html, html_keywords, html_title_link, html_origin. cbv zeta.
  rewrite !append_assoc.
  split_and!; find_substring.
Qed.

Lemma email_html_shows_every_match_witness :
  contains (html_keywords record_with_markup) (email_html [record_with_markup]) = true ∧
  contains (html_title_link record_with_markup) (email_html [record_with_markup]) = true ∧
  contains (html_origin record_with_markup) (email_html [record_with_markup]) = true.
Proof.
  apply (email_html_shows_every_match [record_with_markup] record_with_markup).
  apply list_elem_of_here.
Defined.

(** X19.  Every record of one call of [process_items] carries the
    [item_type] of the call, so the mail labels the matches of the comment
    pass as comments and those of any other pass, the post pass among them,
    as posts. *)
Theorem process_items_record_label {order : SetOrder} (KEYWORDS : list string)
    (tz : Z → Z) (items : list item_data) (seen : gset string)
    (item_type : string) matches n seen' (r : match_record) :
  process_items KEYWORDS tz items seen item_type = Ok (matches, n, seen') →
  r ∈ matches →
  m_type r = item_type ∧
  item_type_label r
  = if String.eqb item_type "comment" then "💬 Comment" else "📝 Post".
Proof.
  intros Hrun Hr. apply process_loop_sources in Hrun
    as (sources & recs & -> & _ & _ & _ & Hrec & _ & _).
  simpl in Hr. apply list_elem_of_lookup in Hr as [i Hi].
  destruct (Forall2_lookup_r _ _ _ _ _ Hrec Hi) as (item & _ & dt & _ & _ & ->).
  done.
Qed.

Lemma process_items_record_label_witness :
  m_type (@build_record trie_order "post" post_A "2023-11-14 22:13:20" {["hiring"]})
    = "post" ∧
  item_type_label
    (@build_record trie_order "post" post_A "2023-11-14 22:13:20" {["hiring"]})
  = if String.eqb "post" "comment" then "💬 Comment" else "📝 Post".
Proof.
  apply (@process_items_record_label trie_order ["hiring"] utc [post_A] ∅ "post"
           [@build_record trie_order "post" post_A "2023-11-14 22:13:20" {["hiring"]}]
           1%nat {["p1"]}).
  - vm_compute. reflexivity.
  - apply list_elem_of_here.
Defined.

(** ** Composition *)

Section Composition.
Context {order : SetOrder}.
Variable KEYWORDS : list string.
Variable tz : Z → Z.

(** The loop started with records and a count in hand adds to them what it
    would have produced from nothing. *)
Lemma process_loop_acc item_type items matches0 n0 seen :
  process_loop KEYWORDS tz item_type items (matches0, n0, seen)
  = match process_loop KEYWORDS tz item_type items ([], 0%nat, seen) with
    | Ok (matches, n, seen') => Ok (matches0 ++ matches, (n0 + n)%nat, seen')
    | Raise e => Raise e
    end.
Proof.
  revert matches0 n0 seen.
  induction items as [|item items IH]; intros matches0 n0 seen.
  - simpl. by rewrite app_nil_r, Nat.add_0_r.
  - rewrite !process_loop_cons.
    destruct (decide (d_id item ∈ seen)) as [Hin|Hin].
    + rewrite !process_item_seen by done. simpl. apply IH.
    + rewrite !process_item_new by done.
      destruct (fromtimestamp tz (get (d_created_utc item) 0)) as [dt|e]; simpl; [| done].
      rewrite (IH (matches0 ++ _)), (IH (new_matches _ _ _ _)).
      destruct (process_loop _ _ _ _ _) as [[[matches n] seen']|e]; [| done].
      by rewrite (assoc_L (++)), Nat.add_succ_comm.
Qed.

Lemma process_loop_app item_type l1 l2 acc :
  process_loop KEYWORDS tz item_type (l1 ++ l2) acc
  = result_bind (process_loop KEYWORDS tz item_type l1 acc)
      (process_loop KEYWORDS tz item_type l2).
Proof.
  revert acc. induction l1 as [|item l1 IH]; intros acc; [done |].
  rewrite <- app_comm_cons, !process_loop_cons.
  destruct (process_item KEYWORDS tz item_type item acc) as [acc'|e]; simpl; [apply IH | done].
Qed.

End Composition.

(** X20.  Processing a list of items in one call gives what processing it
    in two calls gives, page by page say, when the second call starts from
    the seen set the first one left: the records of the first call followed
    by those of the second, the sum of the two counts, and the last seen
    set. *)
Theorem process_items_app {order : SetOrder} (KEYWORDS : list string)
    (tz : Z → Z) (l1 l2 : list item_data) (seen : gset string) (item_type : string)
    m1 n1 s1 m2 n2 s2 :
  process_items KEYWORDS tz l1 seen item_type = Ok (m1, n1, s1) →
  process_items KEYWORDS tz l2 s1 item_type = Ok (m2, n2, s2) →
  process_items KEYWORDS tz (l1 ++ l2) seen item_type
  = Ok (m1 ++ m2, (n1 + n2)%nat, s2).
Proof.
  unfold process_items. intros H1 H2.
  rewrite process_loop_app, H1. cbn [result_bind].
  by rewrite (process_loop_acc _ _ _ _ m1 n1 s1), H2.
Qed.

Lemma process_items_app_witness :
  @process_items trie_order ["hiring"] utc ([post_A] ++ [post_A; comment_B]) ∅ "post"
  = Ok ([@build_record trie_order "post" post_A "2023-11-14 22:13:20" {["hiring"]}] ++ [],
        (1 + 1)%nat, {["p1"; "c1"]}).
Proof.
  apply (@process_items_app trie_order ["hiring"] utc [post_A] [post_A; comment_B] ∅ "post"
           _ 1%nat {["p1"]} [] 1%nat {["p1"; "c1"]}).
  - vm_compute. reflexivity.
  - vm_compute. reflexivity.
Defined.

(** X21.  The two kinds stay apart: at the end of a completed cycle, each
    identifier in the posts file was loaded from the posts file or is the
    identifier of a post fetched in the cycle, and each identifier in the
    comments file was loaded from the comments file or is the identifier of
    a comment fetched in the cycle. *)
Theorem check_reddit_kinds_apart {order : SetOrder} (KEYWORDS : list string)
    (tz : Z → Z) (net : nat → string → page_result)
    (mail_ok : list match_record → bool) (st : state)
    seen_posts seen_comments pm pn sp cm cn sc :
  load_seen_items SEEN_POSTS_FILE st = (Ok seen_posts, st) →
  load_seen_items SEEN_COMMENTS_FILE st = (Ok seen_comments, st) →
  process_items KEYWORDS tz (fetch_multiple_batches net REDDIT_POSTS_URL 10).1
    seen_posts "post" = Ok (pm, pn, sp) →
  process_items KEYWORDS tz (fetch_multiple_batches net REDDIT_COMMENTS_URL 10).1
    seen_comments "comment" = Ok (cm, cn, sc) →
  ∃ posts_ids comments_ids,
    files (check_reddit KEYWORDS tz net mail_ok st).2 !! SEEN_POSTS_FILE
      = Some (IdArray posts_ids) ∧
    files (check_reddit KEYWORDS tz net mail_ok st).2 !! SEEN_COMMENTS_FILE
      = Some (IdArray comments_ids) ∧
    (∀ x, x ∈ posts_ids →
       x ∈ seen_posts ∨
       x ∈ (d_id <$> (fetch_multiple_batches net REDDIT_POSTS_URL 10).1)) ∧
    (∀ x, x ∈ comments_ids →
       x ∈ seen_comments ∨
       x ∈ (d_id <$> (fetch_multiple_batches net REDDIT_COMMENTS_URL 10).1)).
Proof.
  intros Hlp Hlc Hpp Hpc.
  rewrite (check_reddit_run _ _ _ _ _ _ _ _ _ _ _ _ _ Hlp Hlc Hpp Hpc). simpl.
  apply process_loop_sources in Hpp as (_ & _ & _ & _ & _ & _ & _ & _ & ->).
  apply process_loop_sources in Hpc as (_ & _ & _ & _ & _ & _ & _ & _ & ->).
  eexists _, _. split_and!.
  - rewrite lookup_insert_ne by (symmetry; apply seen_files_differ).
    apply lookup_insert_eq.
  - apply lookup_insert_eq.
  - intros x Hx. apply (proj2 (elem_of_list_to_set (C:=gset string) _ _)) in Hx.
    apply seen_list_subseteq in Hx.
    apply elem_of_union in Hx as [?|Hx]; [by left | right].
    by apply elem_of_list_to_set in Hx.
  - intros x Hx. apply (proj2 (elem_of_list_to_set (C:=gset string) _ _)) in Hx.
    apply seen_list_subseteq in Hx.
    apply elem_of_union in Hx as [?|Hx]; [by left | right].
    by apply elem_of_list_to_set in Hx.
Qed.

Lemma check_reddit_kinds_apart_witness :
  ∃ posts_ids comments_ids,
    files (@check_reddit trie_order ["hiring"] utc sample_net (λ _, true)
             {| files := ∅; events := [] |}).2 !! SEEN_POSTS_FILE
      = Some (IdArray posts_ids) ∧
    files (@check_reddit trie_order ["hiring"] utc sample_net (λ _, true)
             {| files := ∅; events := [] |}).2 !! SEEN_COMMENTS_FILE
      = Some (IdArray comments_ids) ∧
    (∀ x, x ∈ posts_ids →
       x ∈ (∅ : gset string) ∨
       x ∈ (d_id <$> (fetch_multiple_batches sample_net REDDIT_POSTS_URL 10).1)) ∧
    (∀ x, x ∈ comments_ids →
       x ∈ (∅ : gset string) ∨
       x ∈ (d_id <$> (fetch_multiple_batches sample_net REDDIT_COMMENTS_URL 10).1)).
Proof.
  apply (@check_reddit_kinds_apart trie_order ["hiring"] utc sample_net (λ _, true)
           {| files := ∅; events := [] |} ∅ ∅
           [@build_record trie_order "post" post_A "2023-11-14 22:13:20" {["hiring"]}]
           1%nat {["p1"]} [] 1%nat {["c1"]}).
  - reflexivity.
  - reflexivity.
  - vm_compute. reflexivity.
  - vm_compute. reflexivity.
Defined.
